(** * Waveform overlay: a shallow embedding of the state-update core

    The embedded program is a small GTK overlay written in Python
    (src/overlay/main.py, audio.py, renderers.py, errors.py).  The parts
    embedded here are the ones that hold state and compute: the periodic
    tick handlers of [WaveformOverlay], the microphone level reader
    [AudioInput.get_level], the consecutive-error bookkeeping of
    [ErrorState] and the timer text of [draw_timer].

    Python's [float] is an IEEE 754 binary64 number; it is embedded as
    Rocq's primitive [float], which is the same format with the same
    round-to-nearest-even arithmetic, so every constant and every
    operation below is bit-for-bit the one the interpreter executes.
    Python's [int] is embedded as [Z], [bytes] as [list byte], [str] as
    [string].  What the toolkit owns (window opacity, redraw requests,
    Cairo paths) is not state of the program and is left out, apart from
    the fact that a toolkit call may raise. *)

From Stdlib Require Import ZArith List Bool Lia String Ascii.
From Stdlib Require Import Strings.Byte DecimalString.
From Stdlib Require Import Floats Uint63.
Import ListNotations.

#[local] Set Warnings "-inexact-float".
#[local] Set Primitive Projections.
#[local] Open Scope Z_scope.

(* ===================================================================== *)
(** * Python values: floats, exceptions, outcomes *)
(* ===================================================================== *)

Module PyFloat.

#[local] Open Scope float_scope.

(** [min(a, b)] with two positional arguments keeps [a] unless [b < a];
    [max(a, b)] keeps [a] unless [b > a].  The asymmetry matters when one
    of them is NaN, for which every comparison is false. *)
Definition py_min (a b : float) : float := if b <? a then b else a.
Definition py_max (a b : float) : float := if a <? b then b else a.

(** [math.pi] and the [2 * math.pi] the spinner code recomputes. *)
Definition math_pi : float := 3.141592653589793.
Definition two_pi : float := 2 * math_pi.

(** Conversion of a Python [int] used as a float operand.  It is exact
    for [0 <= z < 2^53]; the integers converted below are byte counts and
    sums of squares of 16-bit samples of one audio buffer. *)
Definition float_of_int (z : Z) : float := of_uint63 (Uint63.of_Z z).

(** A Python [int] of either sign in float arithmetic ([int * float],
    [int + float], an [int] compared with a [float]): the operand is
    converted, exactly so below [2^53] in absolute value.  The integers
    so used are widget sizes and bar counts. *)
Definition float_of_Z (z : Z) : float :=
  if (z <? 0)%Z then - float_of_int (- z) else float_of_int z.

(** [a / b] on two Python ints (true division). *)
Definition int_truediv (a b : Z) : float := float_of_int a / float_of_int b.

(** The closed interval test [lo <= x <= hi]; false for NaN. *)
Definition within (lo hi x : float) : bool := (lo <=? x) && (x <=? hi).

(** A finite, non-NaN value. *)
Definition finite (x : float) : bool := is_finite x.

End PyFloat.
Export PyFloat.

(** Exceptions carry the text [str(e)], which the logging code formats
    into its messages. *)
Inductive exn_kind : Set :=
  | IOError          (* alias of OSError *)
  | StructError      (* struct.error *)
  | IndexError
  | ValueError
  | OverflowError
  | OtherException.  (* any other subclass of Exception *)

Record exn : Set := mk_exn { kind : exn_kind; message : string }.

Inductive outcome (A : Type) : Type :=
  | Returns (a : A)
  | Raises (e : exn).
Arguments Returns {A} a.
Arguments Raises {A} e.

(* ===================================================================== *)
(** * errors.py: the global error state *)
(* ===================================================================== *)

Module Errors.

Inductive ErrorCategory : Set :=
  | UI_RENDER | AUDIO_INPUT | FILE_IO | SIGNAL_CHECK
  | ANIMATION | WINDOW_MGMT | CLEANUP | UNKNOWN.

(** [category.name] *)
Definition name (c : ErrorCategory) : string :=
  match c with
  | UI_RENDER => "UI_RENDER" | AUDIO_INPUT => "AUDIO_INPUT"
  | FILE_IO => "FILE_IO" | SIGNAL_CHECK => "SIGNAL_CHECK"
  | ANIMATION => "ANIMATION" | WINDOW_MGMT => "WINDOW_MGMT"
  | CLEANUP => "CLEANUP" | UNKNOWN => "UNKNOWN"
  end.

(** The singleton [error_state].  [_consecutive_errors] is a dict read
    with [.get(key, 0)], so it is a total map with default 0.  The fields
    that are only written for debugging ([error_counts], [last_error],
    [active_errors]) have no reader and are left out. *)
Record ErrorState : Type := mk_ErrorState {
  audio_degraded : bool;
  rendering_degraded : bool;
  _consecutive_errors : string -> nat;
  _max_consecutive : nat
}.

(** [ErrorState.__init__] *)
Definition initial : ErrorState :=
  {| audio_degraded := false;
     rendering_degraded := false;
     _consecutive_errors := fun _ => 0%nat;
     _max_consecutive := 5%nat |}.

Definition set_audio_degraded (b : bool) (st : ErrorState) : ErrorState :=
  {| audio_degraded := b;
     rendering_degraded := rendering_degraded st;
     _consecutive_errors := _consecutive_errors st;
     _max_consecutive := _max_consecutive st |}.

(** [record_error(category, severity, error, context)] *)
Definition record_error (category : ErrorCategory) (context : string)
    (st : ErrorState) : ErrorState :=
  let key := (name category ++ ":" ++ context)%string in
  let n := S (_consecutive_errors st key) in
  let tripped := (_max_consecutive st <=? n)%nat in
  {| audio_degraded :=
       match category with
       | AUDIO_INPUT => tripped || audio_degraded st
       | _ => audio_degraded st
       end;
     rendering_degraded :=
       match category with
       | UI_RENDER => tripped || rendering_degraded st
       | _ => rendering_degraded st
       end;
     _consecutive_errors :=
       fun k => if String.eqb k key then n else _consecutive_errors st k;
     _max_consecutive := _max_consecutive st |}.

(** [log_error(category, message, exc)]: the line written to the log file
    is outside the model; with an exception it also records the error
    under the message as context.  [log_warning] and [log_debug] only
    write the log file, so they leave the state as it is. *)
Definition log_error (category : ErrorCategory) (msg : string)
    (exc : option exn) (st : ErrorState) : ErrorState :=
  match exc with
  | Some _ => record_error category msg st
  | None => st
  end.

(** [log_fatal(category, message, exc)] differs from [log_error] in the
    level written to the log and the severity it passes on, which
    [record_error] does not read. *)
Definition log_fatal (category : ErrorCategory) (msg : string)
    (exc : option exn) (st : ErrorState) : ErrorState :=
  log_error category msg exc st.

(** [clear_consecutive(category, context)] *)
Definition clear_consecutive (category : ErrorCategory) (context : string)
    (st : ErrorState) : ErrorState :=
  let key := (name category ++ ":" ++ context)%string in
  {| audio_degraded := audio_degraded st;
     rendering_degraded := rendering_degraded st;
     _consecutive_errors :=
       fun k => if String.eqb k key then 0%nat else _consecutive_errors st k;
     _max_consecutive := _max_consecutive st |}.

(** [is_circuit_open(category, context)] *)
Definition is_circuit_open (category : ErrorCategory) (context : string)
    (st : ErrorState) : bool :=
  let key := (name category ++ ":" ++ context)%string in
  (_max_consecutive st <=? _consecutive_errors st key)%nat.

(** [reset()] *)
Definition reset (st : ErrorState) : ErrorState :=
  {| audio_degraded := false;
     rendering_degraded := false;
     _consecutive_errors := fun _ => 0%nat;
     _max_consecutive := _max_consecutive st |}.




End Errors.

(* ===================================================================== *)
(** * audio.py: the microphone level reader *)
(* ===================================================================== *)

Module Audio.
Import Errors.

(** [self.audio] and [self.stream] hold a handle or [None]; only whether
    the handle is there is ever tested. *)
Record AudioInput : Type := mk_AudioInput {
  audio : bool;
  stream : bool;
  processing_mode : bool;
  _setup_failed : bool;
  _read_errors : Z;
  _max_read_errors : Z
}.

(** [AudioInput.__init__] *)
Definition new : AudioInput :=
  {| audio := false; stream := false; processing_mode := false;
     _setup_failed := false; _read_errors := 0; _max_read_errors := 10 |}.

Definition set_read_errors (n : Z) (a : AudioInput) : AudioInput :=
  {| audio := audio a; stream := stream a;
     processing_mode := processing_mode a;
     _setup_failed := _setup_failed a;
     _read_errors := n; _max_read_errors := _max_read_errors a |}.

(** [set_processing_mode(enabled)] *)
Definition set_processing_mode (enabled : bool) (a : AudioInput) : AudioInput :=
  {| audio := audio a; stream := stream a;
     processing_mode := enabled;
     _setup_failed := _setup_failed a;
     _read_errors := _read_errors a; _max_read_errors := _max_read_errors a |}.

(** What the sound library did during [setup()]. *)
Inductive setup_event : Set :=
  | InitRaises (e : exn)   (* pyaudio.PyAudio() raised *)
  | NoDevices              (* get_device_count() == 0 *)
  | NoDefaultInput         (* get_default_input_device_info() raised IOError *)
  | OpenRaises (e : exn)   (* audio.open(...) raised *)
  | Opened.

(** [_cleanup_partial()] *)
Definition _cleanup_partial (a : AudioInput) : AudioInput :=
  {| audio := false; stream := false;
     processing_mode := processing_mode a;
     _setup_failed := _setup_failed a;
     _read_errors := _read_errors a; _max_read_errors := _max_read_errors a |}.

Definition fail_setup (have_audio : bool) (a : AudioInput) : AudioInput :=
  {| audio := have_audio; stream := stream a;
     processing_mode := processing_mode a;
     _setup_failed := true;
     _read_errors := _read_errors a; _max_read_errors := _max_read_errors a |}.

(** The two outer [except] clauses of [setup()]. *)
Definition setup_except (e : exn) (have_audio : bool) (a : AudioInput)
    (es : ErrorState) : AudioInput * ErrorState * bool :=
  let prefix := match kind e with
                | IOError => "Audio device error: "
                | _ => "Audio setup failed: "
                end%string in
  (_cleanup_partial (fail_setup have_audio a),
   log_error AUDIO_INPUT (prefix ++ message e) (Some e) es,
   false).

(** [setup()] with its boolean result. *)
Definition setup (ev : setup_event) (a : AudioInput) (es : ErrorState)
  : AudioInput * ErrorState * bool :=
  match ev with
  | InitRaises e => setup_except e (audio a) a es
  | NoDevices => (fail_setup true a, es, false)
  | NoDefaultInput => (fail_setup true a, es, false)
  | OpenRaises e => setup_except e true a es
  | Opened =>
      ({| audio := true; stream := true;
          processing_mode := processing_mode a;
          _setup_failed := false;
          _read_errors := 0; _max_read_errors := _max_read_errors a |},
       es, true)
  end.

(** [cleanup()]: errors of the three library calls are caught one by one. *)
Definition cleanup (a : AudioInput) : AudioInput := _cleanup_partial a.

(** One call of [get_level] may ask the stream whether it is active and
    then read from it.  [Device] says what the stream answers. *)
Record Device : Type := mk_Device {
  is_active : outcome bool;
  read : outcome (list byte)      (* stream.read(512, ...) *)
}.

Inductive device_call : Set := CallIsActive | CallRead.

(** [struct.unpack(f'{count}h', data)]: [count] native (little-endian)
    signed 16-bit integers; the buffer must hold exactly [2 * count]
    bytes. *)
Definition short_of_bytes (lo hi : byte) : Z :=
  let u := Z.of_N (Byte.to_N lo) + 256 * Z.of_N (Byte.to_N hi) in
  if u <? 32768 then u else u - 65536.

Fixpoint shorts_of_bytes (data : list byte) : list Z :=
  match data with
  | lo :: hi :: rest => short_of_bytes lo hi :: shorts_of_bytes rest
  | _ => []
  end.

Definition struct_unpack_h (count : Z) (data : list byte) : outcome (list Z) :=
  if Z.of_nat (List.length data) =? 2 * count
  then Returns (shorts_of_bytes data)
  else Raises (mk_exn StructError "unpack requires a buffer of the format size").

(** [sum(s ** 2 for s in shorts)] *)
Definition sum_squares (shorts : list Z) : Z :=
  fold_left (fun acc s => acc + s ^ 2) shorts 0.

(** [math.sqrt]: a negative argument is a [ValueError]. *)
Definition math_sqrt (x : float) : outcome float :=
  if (x <? 0)%float then Raises (mk_exn ValueError "math domain error")
  else Returns (PrimFloat.sqrt x).

(** The result of one call: the value returned, the object afterwards,
    the global error state afterwards and the calls made on the stream. *)
Record level_result : Type := mk_level_result {
  level : float;
  self' : AudioInput;
  errors' : ErrorState;
  calls : list device_call
}.

(** The body of the [try] block of [get_level]: it returns, or it raises
    with the object as it was (the paths that raise change nothing
    before they do). *)
Definition get_level_try (dev : Device) (self : AudioInput)
  : outcome (float * AudioInput) * list device_call :=
  match is_active dev with
  | Raises e => (Raises e, [CallIsActive])
  | Returns false =>
      (Returns (0%float, set_read_errors (_read_errors self + 1) self),
       [CallIsActive])
  | Returns true =>
      match read dev with
      | Raises e => (Raises e, [CallIsActive; CallRead])
      | Returns data =>
          let count := Z.of_nat (List.length data) / 2 in
          ((if count =? 0 then Returns (0%float, self)
            else
              match struct_unpack_h count data with
              | Raises e => Raises e
              | Returns shorts =>
                  match math_sqrt (int_truediv (sum_squares shorts) count) with
                  | Raises e => Raises e
                  | Returns rms =>
                      let normalized := py_min (rms / 3000.0)%float 1.0%float in
                      Returns
                        (normalized,
                         if 0 <? _read_errors self
                         then set_read_errors (Z.max 0 (_read_errors self - 1)) self
                         else self)
                  end
              end),
           [CallIsActive; CallRead])
      end
  end.

(** The three [except] clauses. *)
Definition get_level_except (e : exn) (self : AudioInput) (es : ErrorState)
  : float * AudioInput * ErrorState :=
  let self1 := set_read_errors (_read_errors self + 1) self in
  match kind e with
  | IOError => (0%float, self1, es)
  | StructError => (0%float, self1, es)
  | _ =>
      (0%float, self1,
       log_error AUDIO_INPUT ("Unexpected audio error: " ++ message e)
         (Some e) es)
  end.

(** [get_level()] *)
Definition get_level (dev : Device) (self : AudioInput) (es : ErrorState)
  : outcome level_result :=
  if _setup_failed self || processing_mode self then
    Returns (mk_level_result 0%float self es [])
  else if negb (stream self) then
    Returns (mk_level_result 0%float self es [])
  else if _max_read_errors self <=? _read_errors self then
    Returns (mk_level_result 0%float self
               (if audio_degraded es then es else set_audio_degraded true es) [])
  else
    match get_level_try dev self with
    | (Returns (v, self1), cs) => Returns (mk_level_result v self1 es cs)
    | (Raises e, cs) =>
        let '(v, self1, es1) := get_level_except e self es in
        Returns (mk_level_result v self1 es1 cs)
    end.

(** [is_available()] *)
Definition is_available (self : AudioInput) : bool :=
  negb (_setup_failed self) && stream self
  && (_read_errors self <? _max_read_errors self).

End Audio.

(* ===================================================================== *)
(** * renderers.py: what the timer area shows *)
(* ===================================================================== *)

Module Renderers.

#[local] Open Scope float_scope.

(** [int(x)] on a float truncates toward zero; NaN and the infinities
    raise. *)
Definition py_int (x : float) : outcome Z :=
  match Prim2SF x with
  | S754_zero _ => Returns 0%Z
  | S754_nan => Raises (mk_exn ValueError "cannot convert float NaN to integer")
  | S754_infinity _ =>
      Raises (mk_exn OverflowError "cannot convert float infinity to integer")
  | S754_finite s m e =>
      let a := match e with
               | Zneg p => (Zpos m / 2 ^ Zpos p)%Z
               | _ => (Zpos m * 2 ^ e)%Z
               end in
      Returns (if s then (- a)%Z else a)
  end.

(** [str(n)] and the format [{n:02d}] of an int. *)
Definition str_int (n : Z) : string := NilZero.string_of_int (Z.to_int n).

Definition format_02d (n : Z) : string :=
  if (0 <=? n)%Z && (n <? 10)%Z then ("0" ++ str_int n)%string else str_int n.

(** The validated elapsed time of the timer branch. *)
Definition elapsed_seconds (now start_time : float) : outcome Z :=
  match py_int (now - start_time) with
  | Raises e => Raises e
  | Returns elapsed =>
      let elapsed := if (elapsed <? 0)%Z then 0%Z else elapsed in
      let elapsed := if (86400 <? elapsed)%Z then 86400%Z else elapsed in
      Returns elapsed
  end.

(** [timer_text = f"{minutes}:{seconds:02d}"] *)
Definition timer_text (elapsed : Z) : string :=
  let minutes := (elapsed / 60)%Z in
  let seconds := (elapsed mod 60)%Z in
  (str_int minutes ++ ":" ++ format_02d seconds)%string.

(** What a call of [draw_timer] puts on the Cairo context. *)
Inductive drawn : Type :=
  | Nothing
  | Spinner (start_angle end_angle : float)
  | Text (s : string).

(** [draw_timer(widget, cr, animation_progress, processing_mode,
    spinner_angle, start_time, is_error)] under its [_safe_draw]
    decorator, which turns any exception into "nothing drawn".  [w] and
    [h] are the allocated size of the widget and [now] is [time.time()]. *)
Definition draw_timer (w h : Z) (now : float)
    (animation_progress : float) (processing_mode : bool)
    (spinner_angle start_time : float) (is_error : bool) : drawn :=
  if (w <=? 0)%Z || (h <=? 0)%Z then Nothing
  else if animation_progress <? 0.7 then Nothing
  else if is_error then Nothing
  else if processing_mode then
    let angle := if is_finite spinner_angle then spinner_angle else 0.0 in
    Spinner angle (angle + math_pi * 1.5)
  else
    match elapsed_seconds now start_time with
    | Raises _ => Nothing
    | Returns elapsed => Text (timer_text elapsed)
    end.

(** The fade-in of the content: [min((p - 0.7) / 0.3, 1.0)], then the
    clamp [max(0.0, min(1.0, .))]. *)
Definition content_alpha (animation_progress : float) : float :=
  let content_alpha := py_min ((animation_progress - 0.7) / 0.3) 1.0 in
  py_max 0.0 (py_min 1.0 content_alpha).

(** The validation of a value before it is drawn: a value that is not
    finite is replaced by [default], then [max(0.0, min(1.0, .))]. *)
Definition sanitize (default x : float) : float :=
  let v := if is_finite x then x else default in
  py_max 0.0 (py_min 1.0 v).

(** One bar as [draw_waveform] draws it: the corner, the height and the
    radius of its two arcs. *)
Record bar_shape : Type := mk_bar_shape {
  bar_x : float;
  bar_y : float;
  bar_height : float;
  bar_radius : float
}.

(** The body of the loop of [draw_waveform] for the value [val] at index
    [i]; [h] is the allocated height. *)
Definition bar_shape_of (h : Z) (start_x dynamic_gap : float) (i : nat)
    (val : float) : bar_shape :=
  let bar_val := sanitize 0.1 val in
  let bar_h := 4 + bar_val * float_of_Z (h - 6) in
  let bar_h := py_max 4 (py_min bar_h (float_of_Z h)) in
  let x := start_x + float_of_Z (Z.of_nat i) * (3 + dynamic_gap) in
  let y := (float_of_Z h - bar_h) / 2 in
  let radius := 3 / 1.5 in
  let radius := py_max 0.5 (py_min radius (bar_h / 2)) in
  {| bar_x := x; bar_y := y; bar_height := bar_h; bar_radius := radius |}.

(** [draw_waveform(widget, cr, animation_progress, bars, num_bars,
    overall_audio_level)]: nothing, or the opacity of the source colour
    and the bars filled, first to last.  Cairo is taken not to raise
    (under [_safe_draw] an exception would end the drawing there). *)
Definition draw_waveform (w h : Z) (animation_progress : float)
    (bars : list float) (num_bars : Z) (overall_audio_level : float)
  : option (float * list bar_shape) :=
  if (w <=? 0)%Z || (h <=? 0)%Z then None
  else if animation_progress <? 0.7 then None
  else
    let alpha := content_alpha animation_progress in
    if match bars with [] => true | _ => false end || (num_bars <=? 0)%Z
    then None
    else
      let audio_level := sanitize 0.0 overall_audio_level in
      let dynamic_gap := 2 + audio_level * 2 in
      let total_gap := dynamic_gap * float_of_Z (num_bars - 1) in
      let total_bar_width := float_of_Z (num_bars * 3) in
      let total_w := total_bar_width + total_gap in
      let start_x := (float_of_Z w - total_w) / 2 in
      let n := Z.to_nat num_bars in
      Some (alpha,
            map (fun iv => bar_shape_of h start_x dynamic_gap (fst iv) (snd iv))
              (combine (seq 0 n) (firstn n bars))).

End Renderers.

(* ===================================================================== *)
(** * main.py: the overlay window and its tick handlers *)
(* ===================================================================== *)

Module Overlay.
Import Errors.

#[local] Open Scope float_scope.

(** The attributes of [WaveformOverlay] that [__init__] creates, widgets
    and timer ids apart. *)
Record WaveformOverlay : Type := mk_WaveformOverlay {
  start_time : float;
  processing_mode : bool;
  is_offline : bool;
  processing_start_time : option float;
  _shutting_down : bool;
  animation_progress : float;
  is_closing : bool;
  target_y : Z;
  current_y : Z;
  num_bars : nat;
  bars : list float;
  target_bars : list float;
  spinner_angle : float;
  audio_input : Audio.AudioInput;
  audio_levels : list float;
  overall_audio_level : float
}.

(** Attribute assignment [self.<field> = v], one setter per attribute the
    handlers assign. *)
Definition set_processing_mode (v : bool) (s : WaveformOverlay)
  : WaveformOverlay :=
  {| start_time := start_time s; processing_mode := v;
     is_offline := is_offline s;
     processing_start_time := processing_start_time s;
     _shutting_down := _shutting_down s;
     animation_progress := animation_progress s; is_closing := is_closing s;
     target_y := target_y s; current_y := current_y s;
     num_bars := num_bars s; bars := bars s; target_bars := target_bars s;
     spinner_angle := spinner_angle s; audio_input := audio_input s;
     audio_levels := audio_levels s;
     overall_audio_level := overall_audio_level s |}.

Definition set_is_offline (v : bool) (s : WaveformOverlay)
  : WaveformOverlay :=
  {| start_time := start_time s; processing_mode := processing_mode s;
     is_offline := v; processing_start_time := processing_start_time s;
     _shutting_down := _shutting_down s;
     animation_progress := animation_progress s; is_closing := is_closing s;
     target_y := target_y s; current_y := current_y s;
     num_bars := num_bars s; bars := bars s; target_bars := target_bars s;
     spinner_angle := spinner_angle s; audio_input := audio_input s;
     audio_levels := audio_levels s;
     overall_audio_level := overall_audio_level s |}.

Definition set_processing_start_time (v : option float) (s : WaveformOverlay)
  : WaveformOverlay :=
  {| start_time := start_time s; processing_mode := processing_mode s;
     is_offline := is_offline s; processing_start_time := v;
     _shutting_down := _shutting_down s;
     animation_progress := animation_progress s; is_closing := is_closing s;
     target_y := target_y s; current_y := current_y s;
     num_bars := num_bars s; bars := bars s; target_bars := target_bars s;
     spinner_angle := spinner_angle s; audio_input := audio_input s;
     audio_levels := audio_levels s;
     overall_audio_level := overall_audio_level s |}.

Definition set_shutting_down (v : bool) (s : WaveformOverlay)
  : WaveformOverlay :=
  {| start_time := start_time s; processing_mode := processing_mode s;
     is_offline := is_offline s;
     processing_start_time := processing_start_time s; _shutting_down := v;
     animation_progress := animation_progress s; is_closing := is_closing s;
     target_y := target_y s; current_y := current_y s;
     num_bars := num_bars s; bars := bars s; target_bars := target_bars s;
     spinner_angle := spinner_angle s; audio_input := audio_input s;
     audio_levels := audio_levels s;
     overall_audio_level := overall_audio_level s |}.

Definition set_animation_progress (v : float) (s : WaveformOverlay)
  : WaveformOverlay :=
  {| start_time := start_time s; processing_mode := processing_mode s;
     is_offline := is_offline s;
     processing_start_time := processing_start_time s;
     _shutting_down := _shutting_down s; animation_progress := v;
     is_closing := is_closing s; target_y := target_y s;
     current_y := current_y s; num_bars := num_bars s; bars := bars s;
     target_bars := target_bars s; spinner_angle := spinner_angle s;
     audio_input := audio_input s; audio_levels := audio_levels s;
     overall_audio_level := overall_audio_level s |}.

Definition set_is_closing (v : bool) (s : WaveformOverlay)
  : WaveformOverlay :=
  {| start_time := start_time s; processing_mode := processing_mode s;
     is_offline := is_offline s;
     processing_start_time := processing_start_time s;
     _shutting_down := _shutting_down s;
     animation_progress := animation_progress s; is_closing := v;
     target_y := target_y s; current_y := current_y s;
     num_bars := num_bars s; bars := bars s; target_bars := target_bars s;
     spinner_angle := spinner_angle s; audio_input := audio_input s;
     audio_levels := audio_levels s;
     overall_audio_level := overall_audio_level s |}.

Definition set_target_y (v : Z) (s : WaveformOverlay)
  : WaveformOverlay :=
  {| start_time := start_time s; processing_mode := processing_mode s;
     is_offline := is_offline s;
     processing_start_time := processing_start_time s;
     _shutting_down := _shutting_down s;
     animation_progress := animation_progress s; is_closing := is_closing s;
     target_y := v; current_y := current_y s; num_bars := num_bars s;
     bars := bars s; target_bars := target_bars s;
     spinner_angle := spinner_angle s; audio_input := audio_input s;
     audio_levels := audio_levels s;
     overall_audio_level := overall_audio_level s |}.

Definition set_bars (v : list float) (s : WaveformOverlay)
  : WaveformOverlay :=
  {| start_time := start_time s; processing_mode := processing_mode s;
     is_offline := is_offline s;
     processing_start_time := processing_start_time s;
     _shutting_down := _shutting_down s;
     animation_progress := animation_progress s; is_closing := is_closing s;
     target_y := target_y s; current_y := current_y s;
     num_bars := num_bars s; bars := v; target_bars := target_bars s;
     spinner_angle := spinner_angle s; audio_input := audio_input s;
     audio_levels := audio_levels s;
     overall_audio_level := overall_audio_level s |}.

Definition set_target_bars (v : list float) (s : WaveformOverlay)
  : WaveformOverlay :=
  {| start_time := start_time s; processing_mode := processing_mode s;
     is_offline := is_offline s;
     processing_start_time := processing_start_time s;
     _shutting_down := _shutting_down s;
     animation_progress := animation_progress s; is_closing := is_closing s;
     target_y := target_y s; current_y := current_y s;
     num_bars := num_bars s; bars := bars s; target_bars := v;
     spinner_angle := spinner_angle s; audio_input := audio_input s;
     audio_levels := audio_levels s;
     overall_audio_level := overall_audio_level s |}.

Definition set_spinner_angle (v : float) (s : WaveformOverlay)
  : WaveformOverlay :=
  {| start_time := start_time s; processing_mode := processing_mode s;
     is_offline := is_offline s;
     processing_start_time := processing_start_time s;
     _shutting_down := _shutting_down s;
     animation_progress := animation_progress s; is_closing := is_closing s;
     target_y := target_y s; current_y := current_y s;
     num_bars := num_bars s; bars := bars s; target_bars := target_bars s;
     spinner_angle := v; audio_input := audio_input s;
     audio_levels := audio_levels s;
     overall_audio_level := overall_audio_level s |}.

Definition set_audio_input (v : Audio.AudioInput) (s : WaveformOverlay)
  : WaveformOverlay :=
  {| start_time := start_time s; processing_mode := processing_mode s;
     is_offline := is_offline s;
     processing_start_time := processing_start_time s;
     _shutting_down := _shutting_down s;
     animation_progress := animation_progress s; is_closing := is_closing s;
     target_y := target_y s; current_y := current_y s;
     num_bars := num_bars s; bars := bars s; target_bars := target_bars s;
     spinner_angle := spinner_angle s; audio_input := v;
     audio_levels := audio_levels s;
     overall_audio_level := overall_audio_level s |}.

Definition set_audio_levels (v : list float) (s : WaveformOverlay)
  : WaveformOverlay :=
  {| start_time := start_time s; processing_mode := processing_mode s;
     is_offline := is_offline s;
     processing_start_time := processing_start_time s;
     _shutting_down := _shutting_down s;
     animation_progress := animation_progress s; is_closing := is_closing s;
     target_y := target_y s; current_y := current_y s;
     num_bars := num_bars s; bars := bars s; target_bars := target_bars s;
     spinner_angle := spinner_angle s; audio_input := audio_input s;
     audio_levels := v; overall_audio_level := overall_audio_level s |}.

Definition set_overall_audio_level (v : float) (s : WaveformOverlay)
  : WaveformOverlay :=
  {| start_time := start_time s; processing_mode := processing_mode s;
     is_offline := is_offline s;
     processing_start_time := processing_start_time s;
     _shutting_down := _shutting_down s;
     animation_progress := animation_progress s; is_closing := is_closing s;
     target_y := target_y s; current_y := current_y s;
     num_bars := num_bars s; bars := bars s; target_bars := target_bars s;
     spinner_angle := spinner_angle s; audio_input := audio_input s;
     audio_levels := audio_levels s; overall_audio_level := v |}.

(** Calls that leave the process state: the two cleanup functions that
    [safe_cleanup] runs at teardown. *)
Inductive effect : Set := AudioCleanup | MainQuit.

(** The seven [GLib.timeout_add] sources installed by [__init__]; GLib
    calls a source again and again until its callback returns [False]. *)
Inductive timer : Set :=
  | PositionEarly | PositionLate | Animation | ProcessingMode
  | AudioLevels | Entrance | CloseSignal.

Definition timer_eqb (a b : timer) : bool :=
  match a, b with
  | PositionEarly, PositionEarly | PositionLate, PositionLate
  | Animation, Animation | ProcessingMode, ProcessingMode
  | AudioLevels, AudioLevels | Entrance, Entrance
  | CloseSignal, CloseSignal => true
  | _, _ => false
  end.

(** The window object, the global [error_state], the teardown calls made
    so far and the timer sources still installed. *)
Record World : Type := mk_World {
  win : WaveformOverlay;
  error_state : ErrorState;
  effects : list effect;
  timers : list timer
}.

Definition with_win (v : WaveformOverlay) (w : World) : World :=
  {| win := v; error_state := error_state w; effects := effects w;
     timers := timers w |}.
Definition with_error_state (v : ErrorState) (w : World) : World :=
  {| win := win w; error_state := v; effects := effects w;
     timers := timers w |}.
Definition with_effects (v : list effect) (w : World) : World :=
  {| win := win w; error_state := error_state w; effects := v;
     timers := timers w |}.
Definition with_timers (v : list timer) (w : World) : World :=
  {| win := win w; error_state := error_state w; effects := effects w;
     timers := v |}.

(** ** Statements: a state monad with exceptions

    A method body runs on the world and either returns a value or raises;
    what it assigned before raising stays assigned. *)
Definition M (A : Type) : Type := World -> World * outcome A.

Definition ret {A} (a : A) : M A := fun w => (w, Returns a).
Definition raise {A} (e : exn) : M A := fun w => (w, Raises e).
Definition bind {A B} (m : M A) (f : A -> M B) : M B :=
  fun w =>
    match m w with
    | (w', Returns a) => f a w'
    | (w', Raises e) => (w', Raises e)
    end.
Definition lift {A} (o : outcome A) : M A := fun w => (w, o).
Definition self : M WaveformOverlay := fun w => (w, Returns (win w)).
Definition assign (f : WaveformOverlay -> WaveformOverlay) : M unit :=
  fun w => (with_win (f (win w)) w, Returns tt).

#[local] Notation "x <- m ;; k" := (bind m (fun x => k))
  (at level 61, m at next level, right associativity).
#[local] Notation "m ;; k" := (bind m (fun _ => k))
  (at level 61, right associativity).

Fixpoint for_each {A} (l : list A) (body : A -> M unit) : M unit :=
  match l with
  | [] => ret tt
  | x :: rest => body x ;; for_each rest body
  end.

(** [for i in range(n): body] *)
Definition for_range (n : nat) (body : nat -> M unit) : M unit :=
  for_each (seq 0 n) body.

(** List operations with Python's errors.  All indices used by the
    handlers are non-negative. *)
Definition getitem (l : list float) (i : nat) : outcome float :=
  match nth_error l i with
  | Some v => Returns v
  | None => Raises (mk_exn IndexError "list index out of range")
  end.

Fixpoint replace_nth (l : list float) (i : nat) (v : float) : list float :=
  match l, i with
  | [], _ => []
  | _ :: rest, O => v :: rest
  | x :: rest, S j => x :: replace_nth rest j v
  end.

Definition setitem (l : list float) (i : nat) (v : float)
  : outcome (list float) :=
  if (i <? List.length l)%nat then Returns (replace_nth l i v)
  else Raises (mk_exn IndexError "list assignment index out of range").

Definition pop0 (l : list float) : outcome (list float) :=
  match l with
  | [] => Raises (mk_exn IndexError "pop from empty list")
  | _ :: rest => Returns rest
  end.

(** A toolkit call ([set_opacity], [queue_draw], [move]): it assigns no
    attribute of the window object; [gtk] is the exception it raises, if
    any. *)
Definition toolkit (gtk : option exn) : M unit :=
  match gtk with
  | Some e => raise e
  | None => ret tt
  end.

(** [safe_cleanup(self.audio_input.cleanup, lambda: Gtk.main_quit())]:
    each function is called inside its own [try]. *)
Definition safe_cleanup : M unit :=
  fun w =>
    (with_effects (effects w ++ [AudioCleanup; MainQuit])
       (with_win (set_audio_input (Audio.cleanup (audio_input (win w))) (win w)) w),
     Returns tt).

(** The collaborator behind [self.audio_input.get_level()]: the object,
    the error state, and what the call gives back. *)
Definition sampler : Type :=
  Audio.AudioInput -> ErrorState -> outcome Audio.level_result.

Definition call_get_level (get_level : sampler) : M float :=
  fun w =>
    match get_level (audio_input (win w)) (error_state w) with
    | Returns r =>
        (with_error_state (Audio.errors' r)
           (with_win (set_audio_input (Audio.self' r) (win w)) w),
         Returns (Audio.level r))
    | Raises e => (w, Raises e)
    end.

(** ** The handlers *)

(** The body of the loop of [update_audio_levels] for bar [i];
    [random_factor] is the value [random.uniform(0.8, 1.2)] returns. *)
Definition target_bar_step (random_factor : float) (i : nat) : M unit :=
  s <- self ;;
  let audio_index := (num_bars s - 1 - i)%nat in
  audio_val <- lift (getitem (audio_levels s) audio_index) ;;
  t <- lift (setitem (target_bars s) i
               (py_min (audio_val * random_factor) 1.0)) ;;
  assign (set_target_bars t) ;;
  s <- self ;;
  v <- lift (getitem (target_bars s) i) ;;
  if v <? 0.1 then
    t <- lift (setitem (target_bars s) i 0.1) ;;
    assign (set_target_bars t)
  else ret tt.

(** [update_audio_levels()]; [uniform i] is the value of the call of
    [random.uniform(0.8, 1.2)] made for bar [i] during this tick. *)
Definition update_audio_levels (get_level : sampler) (uniform : nat -> float)
  : M bool :=
  s <- self ;;
  if processing_mode s then ret true
  else
    level <- call_get_level get_level ;;
    s <- self ;;
    assign (set_overall_audio_level
              (overall_audio_level s * 0.7 + level * 0.3)) ;;
    s <- self ;;
    popped <- lift (pop0 (audio_levels s)) ;;
    assign (set_audio_levels popped) ;;
    s <- self ;;
    assign (set_audio_levels (audio_levels s ++ [level])) ;;
    s <- self ;;
    for_range (num_bars s) (fun i => target_bar_step (uniform i) i) ;;
    ret true.

(** [on_destroy(widget)] *)
Definition on_destroy : M unit :=
  s <- self ;;
  if _shutting_down s then ret tt
  else
    assign (set_shutting_down true) ;;
    safe_cleanup.

(** The end of [animate_entrance]: easing, [set_opacity], [queue_draw],
    [return True]. *)
Definition entrance_tail (gtk : option exn) : M bool :=
  toolkit gtk ;; ret true.

(** [animate_entrance()].  The assignment [self.animation_progress = 0]
    stores the int 0, which every later use converts to the float 0.0. *)
Definition animate_entrance (gtk : option exn) : M bool :=
  s <- self ;;
  if is_closing s then
    assign (set_animation_progress (animation_progress s - 0.04)) ;;
    s <- self ;;
    if animation_progress s <=? 0 then
      assign (set_animation_progress 0) ;;
      s <- self ;;
      (if _shutting_down s then ret tt
       else assign (set_shutting_down true) ;; safe_cleanup) ;;
      ret false
    else entrance_tail gtk
  else
    (if animation_progress s <? 1.0 then
       assign (set_animation_progress (animation_progress s + 0.04)) ;;
       s <- self ;;
       if 1.0 <? animation_progress s
       then assign (set_animation_progress 1.0)
       else ret tt
     else ret tt) ;;
    entrance_tail gtk.

(** [check_close_signal()]; [close_file] is the answer of
    [safe_file_check("/tmp/groq_close_animation")]. *)
Definition check_close_signal (close_file : bool) : M bool :=
  s <- self ;;
  (if close_file && negb (is_closing s)
   then assign (set_is_closing true)
   else ret tt) ;;
  ret true.

(** [close_with_animation()] *)
Definition close_with_animation : M unit := assign (set_is_closing true).

(** [check_processing_mode()]; the two booleans are the answers of
    [safe_file_check] for the processing and the connection-error files
    and [now] is [time.time()]. *)
Definition check_processing_mode (processing_file error_file : bool)
    (now : float) (gtk : option exn) : M bool :=
  s <- self ;;
  (if processing_file && negb (processing_mode s) then
     assign (set_processing_mode true) ;;
     s <- self ;;
     assign (set_audio_input (Audio.set_processing_mode true (audio_input s))) ;;
     assign (set_processing_start_time (Some now)) ;;
     assign (set_spinner_angle 0.0)
   else ret tt) ;;
  (if error_file then
     assign (set_is_offline true) ;;
     toolkit gtk
   else ret tt) ;;
  ret true.

(** [position_window()]; the integers are the allocation of the window
    and the size of the screen. *)
Definition position_window (width height screen_width screen_height : Z)
    (gtk : option exn) : M bool :=
  if (width <=? 1)%Z then ret true
  else
    let y := (screen_height - height - 150)%Z in
    assign (set_target_y y) ;;
    toolkit gtk ;;
    ret false.

(** The body of the loop of [update_animation] for bar [i]. *)
Definition bar_step (i : nat) : M unit :=
  s <- self ;;
  t <- lift (getitem (target_bars s) i) ;;
  b <- lift (getitem (bars s) i) ;;
  let diff := t - b in
  b <- lift (getitem (bars s) i) ;;
  l <- lift (setitem (bars s) i (b + diff * 0.3)) ;;
  assign (set_bars l) ;;
  s <- self ;;
  b <- lift (getitem (bars s) i) ;;
  l <- lift (setitem (bars s) i (py_max 0.0 (py_min b 1.0))) ;;
  assign (set_bars l).

(** [update_animation()] *)
Definition update_animation (gtk : option exn) : M bool :=
  s <- self ;;
  (if processing_mode s then
     assign (set_spinner_angle (spinner_angle s + 0.15)) ;;
     s <- self ;;
     (if two_pi <? spinner_angle s
      then assign (set_spinner_angle (spinner_angle s - two_pi))
      else ret tt) ;;
     s <- self ;;
     assign (set_spinner_angle (py_max 0.0 (py_min (spinner_angle s) two_pi))) ;;
     toolkit gtk
   else
     for_range (num_bars s) bar_step ;;
     toolkit gtk) ;;
  toolkit gtk ;;
  ret true.

(** [on_draw_timer(widget, cr)]; [w], [h] are the allocated size of the
    timer area and [now] is [time.time()]. *)
Definition on_draw_timer (w h : Z) (now : float) (s : WaveformOverlay)
  : Renderers.drawn :=
  Renderers.draw_timer w h now (animation_progress s) (processing_mode s)
    (spinner_angle s) (start_time s) (is_offline s).

(** [on_draw_waveform(widget, cr)] *)
Definition on_draw_waveform (w h : Z) (s : WaveformOverlay)
  : option (float * list Renderers.bar_shape) :=
  if is_offline s then None
  else
    Renderers.draw_waveform w h (animation_progress s) (bars s)
      (Z.of_nat (num_bars s)) (overall_audio_level s).

(** ** The [_safe_*] wrappers: what GLib actually calls

    Each returns at once with [False] when the shutdown latch is set, and
    otherwise turns an exception of the handler into a log entry and a
    fixed result. *)
Definition log (category : ErrorCategory) (prefix : string) (e : exn)
    (w : World) : World :=
  with_error_state
    (log_error category (prefix ++ message e) (Some e) (error_state w)) w.

Definition guarded (body : M bool) (on_error : exn -> World -> World * bool)
    (w : World) : World * bool :=
  if _shutting_down (win w) then (w, false)
  else
    match body w with
    | (w', Returns r) => (w', r)
    | (w', Raises e) => on_error e w'
    end.

Definition _safe_update_audio_levels (get_level : sampler)
    (uniform : nat -> float) : World -> World * bool :=
  guarded (update_audio_levels get_level uniform)
    (fun e w => (log AUDIO_INPUT "Error updating audio levels: " e w, true)).

Definition _safe_update_animation (gtk : option exn) : World -> World * bool :=
  guarded (update_animation gtk)
    (fun e w => (log ANIMATION "Error in animation update: " e w, true)).

Definition _safe_animate_entrance (gtk : option exn) : World -> World * bool :=
  guarded (animate_entrance gtk)
    (fun e w =>
       let w := log ANIMATION "Error in entrance animation: " e w in
       (with_win (set_animation_progress 1.0 (win w)) w, false)).

Definition _safe_check_close_signal (close_file : bool)
  : World -> World * bool :=
  guarded (check_close_signal close_file)
    (fun e w => (log SIGNAL_CHECK "Error checking close signal: " e w, true)).

Definition _safe_check_processing_mode (processing_file error_file : bool)
    (now : float) (gtk : option exn) : World -> World * bool :=
  guarded (check_processing_mode processing_file error_file now gtk)
    (fun e w => (log SIGNAL_CHECK "Error checking processing mode: " e w, true)).

Definition _safe_position_window (width height screen_width screen_height : Z)
    (gtk : option exn) : World -> World * bool :=
  guarded (position_window width height screen_width screen_height gtk)
    (fun e w => (log WINDOW_MGMT "Error positioning window: " e w, false)).

(** ** The event loop *)

(** One event of the main loop: a timer source firing, with what the
    outside world answers during the callback, or the [destroy] signal. *)
Inductive tick : Type :=
  | TPosition (early : bool) (width height screen_width screen_height : Z)
      (gtk : option exn)
  | TAnimation (gtk : option exn)
  | TProcessingMode (processing_file error_file : bool) (now : float)
      (gtk : option exn)
  | TAudio (get_level : sampler) (uniform : nat -> float)
  | TEntrance (gtk : option exn)
  | TCloseSignal (close_file : bool)
  | TDestroy.

Definition source (t : tick) : option timer :=
  match t with
  | TPosition early _ _ _ _ _ => Some (if early then PositionEarly else PositionLate)
  | TAnimation _ => Some Animation
  | TProcessingMode _ _ _ _ => Some ProcessingMode
  | TAudio _ _ => Some AudioLevels
  | TEntrance _ => Some Entrance
  | TCloseSignal _ => Some CloseSignal
  | TDestroy => None
  end.

Definition callback (t : tick) : World -> World * bool :=
  match t with
  | TPosition _ wd ht sw sh gtk => _safe_position_window wd ht sw sh gtk
  | TAnimation gtk => _safe_update_animation gtk
  | TProcessingMode p e now gtk => _safe_check_processing_mode p e now gtk
  | TAudio g u => _safe_update_audio_levels g u
  | TEntrance gtk => _safe_animate_entrance gtk
  | TCloseSignal c => _safe_check_close_signal c
  | TDestroy => fun w => (fst (on_destroy w), false)
  end.

(** A source that is no longer installed does not fire; a callback that
    returns [False] removes its source. *)
Definition step (t : tick) (w : World) : World :=
  match source t with
  | None => fst (callback t w)
  | Some src =>
      if existsb (timer_eqb src) (timers w) then
        let (w', keep) := callback t w in
        if keep then w'
        else with_timers
               (filter (fun x => negb (timer_eqb src x)) (timers w')) w'
      else w
  end.

Definition run (ts : list tick) (w : World) : World :=
  fold_left (fun w t => step t w) ts w.

(** [WaveformOverlay.__init__]: [now] is [time.time()], [ev] is what the
    sound library did during [setup()]. *)
Definition init (now : float) (ev : Audio.setup_event) : World :=
  let '(a, es, _) := Audio.setup ev Audio.new Errors.initial in
  {| win :=
       {| start_time := now;
          processing_mode := false;
          is_offline := false;
          processing_start_time := None;
          _shutting_down := false;
          animation_progress := 0.0;
          is_closing := false;
          target_y := 0;
          current_y := 0;
          num_bars := 16;
          bars := repeat 0.1 16;
          target_bars := repeat 0.1 16;
          spinner_angle := 0.0;
          audio_input := a;
          audio_levels := repeat 0.0 16;
          overall_audio_level := 0.0 |};
     error_state := es;
     effects := [];
     timers := [PositionEarly; PositionLate; Animation; ProcessingMode;
                AudioLevels; Entrance; CloseSignal] |}.

End Overlay.

(* ===================================================================== *)
(** * The entrance and exit morph *)
(* ===================================================================== *)

Module Morph.
Import Overlay.

#[local] Open Scope float_scope.

(** One tick of the morph while no close was requested, and one tick
    while closing, as maps on the progress value.  [animate_entrance]
    is proved below to act on [animation_progress] by these maps. *)
Definition rise (p : float) : float :=
  if p <? 1.0 then py_min (p + 0.04) 1.0 else p.

Definition fall (p : float) : float :=
  if p - 0.04 <=? 0 then 0 else p - 0.04.

Fixpoint orbit (f : float -> float) (n : nat) (p : float) : list float :=
  match n with
  | O => [p]
  | S k => p :: orbit f k (f p)
  end.

(** The progress values of an opening window, and all the values a
    closing window can pass through after leaving one of them. *)
Definition rising : list float := Eval vm_compute in orbit rise 25 0.0.
Definition levels : list float :=
  Eval vm_compute in flat_map (orbit fall 25) rising.

Definition mem (p : float) (l : list float) : bool :=
  existsb (Leibniz.eqb p) l.


(** The state left by the tick that ends the closing morph. *)
Definition torn_down (w : World) : World :=
  let s := set_animation_progress 0 (win w) in
  if _shutting_down s then with_win s w
  else
    with_effects (effects w ++ [AudioCleanup; MainQuit])
      (with_win
         (set_audio_input (Audio.cleanup (audio_input s))
            (set_shutting_down true s)) w).

End Morph.

(* ===================================================================== *)
(** * Vocabulary of the statements *)
(* ===================================================================== *)

(** ** IEEE 754 values as [SpecFloat] reads them *)

(** [r] is a zero, a finite number of sign [s] or the infinity of sign
    [s]: in particular it is not NaN. *)
Definition signed (s : bool) (r : spec_float) : Prop :=
  match r with
  | S754_zero _ => True
  | S754_infinity s' | S754_finite s' _ _ => s' = s
  | S754_nan => False
  end.

Definition is_finite_sf (x : spec_float) : Prop :=
  match x with S754_zero _ | S754_finite _ _ _ => True | _ => False end.






(** ** The level reader: devices and call sequences *)

Section LevelReaderTerms.

Import Errors Audio.



Definition loud : list byte := [x00; x40].  (* one sample of value 16384 *)

Definition dev_ok : Device :=
  {| is_active := Returns true; read := Returns loud |}.
Definition dev_io_error : Device :=
  {| is_active := Returns true;
     read := Raises (mk_exn IOError "Input overflowed") |}.

Definition opened : AudioInput :=
  fst (fst (setup Opened Audio.new Errors.initial)).

(** A sequence of calls of [get_level], one device answer per call. *)
Fixpoint calls_of (devs : list Device) (self : AudioInput) (es : ErrorState)
  : list level_result :=
  match devs with
  | [] => []
  | dev :: rest =>
      match get_level dev self es with
      | Returns r => r :: calls_of rest (self' r) (errors' r)
      | Raises _ => []
      end
  end.

Definition read_errors_after (devs : list Device) : list Z :=
  map (fun r => _read_errors (self' r)) (calls_of devs opened Errors.initial).

End LevelReaderTerms.

(** ** The overlay: observations of the world *)

Section OverlayTerms.

Import Overlay Morph.
#[local] Open Scope float_scope.

Definition gtk_outcome (gtk : option exn) : outcome bool :=
  match gtk with Some e => Raises e | None => Returns true end.

(** [m] leaves the observation [obs] of the world as it was. *)
Definition frames {X R : Type} (obs : World -> X) (m : World -> World * R) : Prop :=
  forall w, obs (fst (m w)) = obs w.

(** The morph state: progress and the closing flag. *)
Definition morph (w : World) : float * bool :=
  (animation_progress (win w), is_closing (win w)).

Definition progress_ok (w : World) : Prop :=
  mem (animation_progress (win w)) levels = true /\
  (is_closing (win w) = false ->
   mem (animation_progress (win w)) rising = true).

Definition entrance_installed (w : World) : bool :=
  existsb (timer_eqb Entrance) (timers w).


Definition effect_eqb (a b : effect) : bool :=
  match a, b with
  | AudioCleanup, AudioCleanup | MainQuit, MainQuit => true
  | _, _ => false
  end.

Definition count (e : effect) (l : list effect) : nat :=
  List.length (filter (effect_eqb e) l).

(** The latch and the cleanup calls made so far. *)
Definition latch (w : World) : bool * list effect :=
  (_shutting_down (win w), effects w).

(** The two teardown triggers, as the toolkit calls them. *)
Definition destroy (w : World) : World := step TDestroy w.
Definition morph_tick (gtk : option exn) (w : World) : World :=
  step (TEntrance gtk) w.

Definition cleaned_once (w : World) : Prop :=
  count AudioCleanup (effects w) = (if _shutting_down (win w) then 1 else 0)%nat
  /\ count MainQuit (effects w) = (if _shutting_down (win w) then 1 else 0)%nat.

(** Everything but the installed timer sources. *)
Definition program (w : World) : WaveformOverlay * Errors.ErrorState * list effect :=
  (win w, error_state w, effects w).

(** The waveform part of the state. *)
Definition waveform (w : World)
  : list float * list float * list float * float :=
  (bars (win w), target_bars (win w), audio_levels (win w),
   overall_audio_level (win w)).

(** One spinner step: add 0.15, wrap once past [2 * pi], clamp. *)
Definition spin (a : float) : float :=
  let a1 := a + 0.15 in
  let a2 := if two_pi <? a1 then a1 - two_pi else a1 in
  py_max 0.0 (py_min a2 two_pi).

Definition NUM_BARS : nat := 16.

Definition shaped (w : World) : Prop :=
  num_bars (win w) = NUM_BARS /\
  List.length (bars (win w)) = NUM_BARS /\
  List.length (target_bars (win w)) = NUM_BARS /\
  List.length (audio_levels (win w)) = NUM_BARS.

(** The interpolation of one bar toward its target, then the clamp. *)
Definition smooth (target bar : float) : float :=
  py_max 0.0 (py_min (bar + (target - bar) * 0.3) 1.0).

Definition smooth_all (targets bars : list float) : list float :=
  map (fun bt => smooth (snd bt) (fst bt)) (combine bars targets).

(** Cap at 1.0, then floor at 0.1, as the two statements of the loop do. *)
Definition cap_floor (x : float) : float :=
  let t := py_min x 1.0 in if t <? 0.1 then 0.1 else t.

(** Exponential moving average with smoothing factor 0.3. *)
Definition ema (overall level : float) : float := overall * 0.7 + level * 0.3.

(** Drop the oldest entry, append the newest. *)
Definition push (history : list float) (level : float) : list float :=
  tl history ++ [level].

(** Target of bar [i]: the history read from the newest end, times the
    jitter drawn for this bar, capped at 1.0 and then floored at 0.1. *)
Definition bar_target (history : list float) (jitter : nat -> float) (i : nat)
  : float :=
  let x := nth (NUM_BARS - 1 - i) history 0 * jitter i in
  let capped := if 1.0 <? x then 1.0 else x in
  if capped <? 0.1 then 0.1 else capped.

Definition spec_audio_tick (level : float) (jitter : nat -> float)
    (s : WaveformOverlay) : WaveformOverlay :=
  let history := push (audio_levels s) level in
  set_target_bars (map (bar_target history jitter) (seq 0 NUM_BARS))
    (set_audio_levels history
       (set_overall_audio_level (ema (overall_audio_level s) level) s)).

Definition write_target (u : nat -> float) (i : nat) (w : World) : World :=
  with_win (set_target_bars
              (replace_nth (target_bars (win w)) i
                 (cap_floor (nth (num_bars (win w) - 1 - i)
                               (audio_levels (win w)) 0 * u i)))
              (win w)) w.

(** The lists and the smoothed level. *)
Definition lists_state (w : World)
  : nat * list float * list float * list float * float :=
  (num_bars (win w), bars (win w), target_bars (win w),
   audio_levels (win w), overall_audio_level (win w)).

Definition unit_list (l : list float) : Prop :=
  Forall (fun x => within 0 1 x = true) l.

(** What holds whatever the level sampler returns. *)
Definition ranges (w : World) : Prop :=
  shaped w /\ unit_list (bars (win w)) /\
  within 0 two_pi (spinner_angle (win w)) = true.





(** A sampler that answers with a fixed value, whatever it is. *)
Definition constant_sampler (x : float) : sampler :=
  fun a es => Returns (Audio.mk_level_result x a es []).



End OverlayTerms.

(** ** The error state: keys and sequences of operations *)

Section ErrorTerms.

Import Errors.
#[local] Open Scope nat_scope.

(** The key of the consecutive-error dict: [f"{category.name}:{context}"]. *)
Definition key (category : ErrorCategory) (context : string) : string :=
  (name category ++ ":" ++ context)%string.



(** The operations on the error state other than [reset]. *)
Inductive error_op : Type :=
  | OpRecord (category : ErrorCategory) (context : string)
  | OpClear (category : ErrorCategory) (context : string)
  | OpLogError (category : ErrorCategory) (msg : string) (exc : option exn)
  | OpLogFatal (category : ErrorCategory) (msg : string) (exc : option exn).

Definition run_op (o : error_op) (st : ErrorState) : ErrorState :=
  match o with
  | OpRecord c ctx => record_error c ctx st
  | OpClear c ctx => clear_consecutive c ctx st
  | OpLogError c m exc => log_error c m exc st
  | OpLogFatal c m exc => log_fatal c m exc st
  end.


End ErrorTerms.

(** ** The level reader: states of the object *)

Section LevelReaderStates.

Import Errors Audio.

(** A stream that is active and whose read returns [data]. *)
Definition dev_reading (data : list byte) : Device :=
  {| is_active := Returns true; read := Returns data |}.

(** An opened object whose counter has reached the limit. *)
Definition tripped : AudioInput := set_read_errors 10 opened.

(** The result of a call that did not touch the stream. *)
Definition untouched (self : AudioInput) (r : level_result) : Prop :=
  level r = 0%float /\ self' r = self /\ calls r = [].


End LevelReaderStates.

(** ** The renderers *)

Section DrawingTerms.

Import Renderers.

(** The largest allocated height the bounds below are checked for. *)
Definition MAX_HEIGHT : Z := 32767.

(** [f] holds of the [n] integers from [z] on. *)
Fixpoint all_from (f : Z -> bool) (n : nat) (z : Z) : bool :=
  match n with
  | O => true
  | S k => f z && all_from f k (z + 1)
  end.

End DrawingTerms.

(** ** The overlay: sources, signals and failures *)

Section OverlayCases.

Import Overlay Morph.
#[local] Open Scope float_scope.

(** A source is installed. *)
Definition installed (src : timer) (w : World) : bool :=
  existsb (timer_eqb src) (timers w).

(** An event other than the [destroy] signal. *)
Definition is_timer (t : tick) : Prop :=
  match t with TDestroy => False | _ => True end.

(** The window after [__init__] and a [destroy] signal. *)
Definition destroyed : World := run [TDestroy] (init 0 Audio.Opened).

(** One firing of each of the seven sources, the outside world quiet. *)
Definition one_round : list tick :=
  [TPosition true 0 0 0 0 None; TPosition false 0 0 0 0 None;
   TAnimation None; TProcessingMode false false 0 None;
   TAudio (fun a es => Returns (Audio.mk_level_result 0 a es [])) (fun _ => 1);
   TEntrance None; TCloseSignal false].

(** The window after a toolkit exception in its first entrance tick. *)
Definition stuck_open : World :=
  run [TEntrance (Some (mk_exn OtherException "set_opacity"))]
    (init 0 Audio.Opened).

(** The window after the connection-error signal. *)
Definition offline : World :=
  run [TProcessingMode false true 0 None] (init 0 Audio.Opened).

(** An overlay whose audio setup failed and whose waveform is the one
    [__init__] made. *)
Definition settled (w : World) : Prop :=
  shaped w /\
  Audio._setup_failed (audio_input (win w)) = true /\
  waveform w = (repeat 0.1 16, repeat 0.1 16, repeat 0 16, 0).

(** A tick whose sampler is [get_level] of audio.py on some stream and
    whose jitter factors are in the range of [random.uniform(0.8, 1.2)]. *)
Definition reads_microphone (t : tick) : Prop :=
  match t with
  | TAudio g u =>
      (exists dev, g = Audio.get_level dev) /\
      forall i, within 0.8 1.2 (u i) = true
  | _ => True
  end.


End OverlayCases.

(* ===================================================================== *)
(** * Properties *)
(* ===================================================================== *)

(* ===================================================================== *)
(** * Facts about binary64 comparisons *)
(* ===================================================================== *)

Section FloatOrder.

#[local] Open Scope float_scope.

(** Swapping the arguments of the specification comparison flips its
    result. *)
Lemma SFcompare_swap (x y : spec_float) :
  SFcompare y x = option_map CompOpp (SFcompare x y).
Proof.
  destruct x as [sx|sx| |sx mx ex], y as [sy|sy| |sy my ey]; simpl;
    try reflexivity;
    try (destruct sx; reflexivity);
    try (destruct sy; reflexivity);
    try (destruct sx, sy; reflexivity).
  destruct sx, sy; simpl; try reflexivity;
    rewrite (Z.compare_antisym ex ey);
    destruct (ex ?= ey)%Z; simpl; try reflexivity;
    change (Pos.compare_cont Eq my mx) with (Pos.compare my mx);
    change (Pos.compare_cont Eq mx my) with (Pos.compare mx my);
    rewrite (Pos.compare_antisym mx my);
    destruct (mx ?= my)%positive; reflexivity.
Qed.

Lemma ltb_leb (x y : float) : (x <? y) = true -> (x <=? y) = true.
Proof.
  rewrite FloatAxioms.ltb_spec, FloatAxioms.leb_spec. unfold SFltb, SFleb.
  destruct (SFcompare (Prim2SF x) (Prim2SF y)) as [[ | | ]|];
    intros H; try discriminate H; reflexivity.
Qed.

Lemma ltb_not_nan_l (x y : float) : (x <? y) = true -> is_nan x = false.
Proof.
  unfold is_nan. rewrite FloatAxioms.ltb_spec, FloatAxioms.eqb_spec. unfold SFltb, SFeqb.
  destruct (Prim2SF x) as [s|s| |s m e]; simpl; intros H;
    try discriminate H; try reflexivity.
  - destruct s; reflexivity.
  - destruct s; simpl; rewrite Z.compare_refl, Pos.compare_cont_refl;
      reflexivity.
Qed.

Lemma ltb_not_nan_r (x y : float) : (x <? y) = true -> is_nan y = false.
Proof.
  unfold is_nan. rewrite FloatAxioms.ltb_spec, FloatAxioms.eqb_spec. unfold SFltb, SFeqb.
  destruct (Prim2SF y) as [s|s| |s m e]; simpl; intros H;
    try reflexivity.
  - destruct s; reflexivity.
  - destruct (Prim2SF x); discriminate H.
  - destruct s; simpl; rewrite Z.compare_refl, Pos.compare_cont_refl;
      reflexivity.
Qed.

Lemma leb_not_nan_l (x y : float) : (x <=? y) = true -> is_nan x = false.
Proof.
  unfold is_nan. rewrite FloatAxioms.leb_spec, FloatAxioms.eqb_spec. unfold SFleb, SFeqb.
  destruct (Prim2SF x) as [s|s| |s m e]; simpl; intros H;
    try discriminate H; try reflexivity.
  - destruct s; reflexivity.
  - destruct s; simpl; rewrite Z.compare_refl, Pos.compare_cont_refl;
      reflexivity.
Qed.

Lemma leb_not_nan_r (x y : float) : (x <=? y) = true -> is_nan y = false.
Proof.
  unfold is_nan. rewrite FloatAxioms.leb_spec, FloatAxioms.eqb_spec. unfold SFleb, SFeqb.
  destruct (Prim2SF y) as [s|s| |s m e]; simpl; intros H;
    try reflexivity.
  - destruct s; reflexivity.
  - destruct (Prim2SF x); discriminate H.
  - destruct s; simpl; rewrite Z.compare_refl, Pos.compare_cont_refl;
      reflexivity.
Qed.

Lemma is_nan_spec (x : float) :
  is_nan x = false <-> Prim2SF x <> S754_nan.
Proof.
  unfold is_nan. rewrite FloatAxioms.eqb_spec. unfold SFeqb.
  destruct (Prim2SF x) as [s|s| |s m e]; simpl.
  - split; [discriminate|reflexivity].
  - destruct s; (split; [discriminate|reflexivity]).
  - split; [discriminate|intros H; now elim H].
  - destruct s; simpl; rewrite Z.compare_refl, Pos.compare_cont_refl;
      (split; [discriminate|reflexivity]).
Qed.

Lemma leb_refl (x : float) : is_nan x = false -> (x <=? x) = true.
Proof.
  unfold is_nan. rewrite FloatAxioms.leb_spec, FloatAxioms.eqb_spec. unfold SFleb, SFeqb.
  destruct (SFcompare (Prim2SF x) (Prim2SF x)) as [[ | | ]|];
    intros H; try discriminate H; reflexivity.
Qed.

(** Two numbers that are not NaN are comparable: if [x < y] fails then
    [y <= x]. *)
Lemma not_ltb_leb (x y : float) :
  is_nan x = false -> is_nan y = false ->
  (x <? y) = false -> (y <=? x) = true.
Proof.
  intros Hx Hy. apply is_nan_spec in Hx. apply is_nan_spec in Hy.
  rewrite FloatAxioms.ltb_spec, FloatAxioms.leb_spec. unfold SFltb, SFleb.
  rewrite (SFcompare_swap (Prim2SF x) (Prim2SF y)).
  destruct (SFcompare (Prim2SF x) (Prim2SF y)) as [[ | | ]|] eqn:E;
    simpl; intros H; try discriminate H; try reflexivity.
  destruct (Prim2SF x), (Prim2SF y); simpl in E;
    try discriminate E; try (now elim Hx); now elim Hy.
Qed.

(** Python's clamp [max(lo, min(x, hi))] lands in [[lo, hi]] whatever [x]
    is, NaN included. *)
Lemma clamp_within (lo hi x : float) :
  (lo <=? hi) = true ->
  within lo hi (py_max lo (py_min x hi)) = true.
Proof.
  intros Hlh. unfold within, py_max, py_min.
  pose proof (leb_not_nan_l _ _ Hlh) as Hlo.
  pose proof (leb_not_nan_r _ _ Hlh) as Hhi.
  destruct (hi <? x) eqn:E1.
  - destruct (lo <? hi) eqn:E2.
    + rewrite (ltb_leb _ _ E2), (leb_refl _ Hhi). reflexivity.
    + rewrite (leb_refl _ Hlo), Hlh. reflexivity.
  - destruct (lo <? x) eqn:E2.
    + rewrite (ltb_leb _ _ E2).
      rewrite (not_ltb_leb hi x Hhi (ltb_not_nan_r _ _ E2) E1).
      reflexivity.
    + rewrite (leb_refl _ Hlo), Hlh. reflexivity.
Qed.


End FloatOrder.

Section Rounding.
Variables prec emax : Z.

Lemma iter_pos_invariant {A} (f : A -> A) (P : A -> Prop) :
  (forall x, P x -> P (f x)) ->
  forall n x, P x -> P (iter_pos f n x).
Proof.
  intros Hf. induction n as [n IH|n IH|]; intros x Hx; simpl; auto.
Qed.

Lemma shr_1_nonneg mrs : 0 <= shr_m mrs -> 0 <= shr_m (shr_1 mrs).
Proof.
  destruct mrs as [m r s]. simpl.
  destruct m as [|[p|p|]|p]; simpl; lia.
Qed.

Lemma shr_nonneg mrs e n : 0 <= shr_m mrs -> 0 <= shr_m (fst (shr mrs e n)).
Proof.
  intros H. unfold shr. destruct n; simpl; auto.
  apply iter_pos_invariant; auto using shr_1_nonneg.
Qed.

Lemma shr_fexp_nonneg m e l :
  0 <= m -> 0 <= shr_m (fst (shr_fexp prec emax m e l)).
Proof.
  intros H. unfold shr_fexp. apply shr_nonneg.
  destruct l as [|[ | | ]]; exact H.
Qed.

Lemma round_nearest_even_nonneg m l : 0 <= m -> 0 <= round_nearest_even m l.
Proof.
  intros H. unfold round_nearest_even.
  destruct l as [|[ | | ]]; try destruct (Z.even m); lia.
Qed.

Lemma binary_round_aux_signed s m e l :
  0 <= m -> signed s (binary_round_aux prec emax s m e l).
Proof.
  intros H. unfold binary_round_aux.
  pose proof (shr_fexp_nonneg m e l H) as H1.
  destruct (shr_fexp prec emax m e l) as [mrs1 e1]. simpl in H1.
  pose proof (shr_fexp_nonneg _ e1 loc_Exact
                (round_nearest_even_nonneg _ (loc_of_shr_record mrs1) H1)) as H2.
  destruct (shr_fexp prec emax _ e1 loc_Exact) as [mrs2 e2]. simpl in H2.
  destruct (shr_m mrs2) as [|p|p]; simpl; try lia; auto.
  destruct (e2 <=? emax - prec); simpl; auto.
Qed.

Lemma binary_round_signed s m e : signed s (binary_round prec emax s m e).
Proof.
  unfold binary_round.
  destruct (shl_align m e _) as [mz ez].
  apply binary_round_aux_signed. lia.
Qed.


(** Products, sums, quotients and square roots of numbers that are not
    negative are not negative, and not NaN where no [0 * inf], [0 / 0] or
    [inf / inf] is formed. *)
Lemma SFmul_signed x y :
  signed false x -> signed false y -> is_finite_sf x -> is_finite_sf y ->
  signed false (SFmul prec emax x y).
Proof.
  destruct x as [sx|sx| |sx mx ex], y as [sy|sy| |sy my ey]; simpl;
    intros Hx Hy Fx Fy; try contradiction; auto.
  subst. simpl. apply binary_round_aux_signed. lia.
Qed.

Lemma SFadd_signed x y :
  signed false x -> signed false y -> signed false (SFadd prec emax x y).
Proof.
  destruct x as [sx|sx| |sx mx ex], y as [sy|sy| |sy my ey]; simpl;
    intros Hx Hy; try contradiction; subst; simpl; auto.
  - destruct sx, sy; simpl; auto.
  - apply binary_round_signed.
Qed.


End Rounding.
Section Shift.





End Shift.

Section RoundBound.
Variables prec emax : Z.
Hypothesis prec_pos : 0 < prec.

Variable K : Z.





End RoundBound.

(* ------------------------------------------------------------------ *)
(** ** Consequences for primitive floats *)

Section Binary64.

#[local] Open Scope float_scope.
#[local] Set Warnings "-inexact-float".





(** Values are scaled by [2^K]; [K] is large enough for every exponent
    met below to stay non-negative. *)
Variable K : Z.
Hypothesis K_value : K = 1200%Z.













End Binary64.


(** ** Finite operands *)

Section Finite.
#[local] Open Scope float_scope.

Lemma within_finite lo hi x :
  is_finite_sf (Prim2SF lo) -> is_finite_sf (Prim2SF hi) ->
  within lo hi x = true -> is_finite_sf (Prim2SF x).
Proof.
  unfold within. intros Hlo Hhi H. apply andb_prop in H.
  destruct H as [H1 H2].
  rewrite FloatAxioms.leb_spec in H1, H2. unfold SFleb in *.
  destruct (Prim2SF x) as [s|s| |s m e]; simpl; auto.
  - destruct s.
    + destruct (Prim2SF lo) as [a|a| |a ma ea]; simpl in *;
        try contradiction; discriminate H1.
    + destruct (Prim2SF hi) as [a|a| |a ma ea]; simpl in *;
        try contradiction; discriminate H2.
  - destruct (Prim2SF lo); discriminate H1.
Qed.



End Finite.

Section LevelReader.

Import Errors Audio.

(** ** [get_level]: totality and range *)

Lemma sum_squares_nonneg shorts : 0 <= sum_squares shorts.
Proof.
  unfold sum_squares.
  assert (G : forall l acc, 0 <= acc -> 0 <= fold_left (fun a s => a + s ^ 2) l acc).
  { induction l as [|s l IH]; intros acc Ha; simpl; [exact Ha|].
    apply IH. pose proof (Z.pow_even_nonneg s 2 ltac:(now exists 1)). lia. }
  apply G. lia.
Qed.











(** ** The read-error counter *)

(** C7 (the code at the failing input).  After two failed reads the
    counter is 2; a successful read leaves it at 1, not at 0. *)
Lemma success_decrements_counter :
  read_errors_after [dev_io_error; dev_io_error; dev_ok] = [1; 2; 1].
Proof. vm_compute. reflexivity. Qed.

(** Nine failures, a success and two more failures open the breaker: the
    next call touches no device and sets the degraded flag, although no
    ten failures were consecutive. *)
Lemma breaker_opens_without_ten_in_a_row :
  let devs := repeat dev_io_error 9 ++ [dev_ok; dev_io_error; dev_io_error;
                                        dev_ok] in
  map (fun r => (_read_errors (self' r), calls r, audio_degraded (errors' r)))
      (skipn 9 (calls_of devs opened Errors.initial))
  = [(8, [CallIsActive; CallRead], false);
     (9, [CallIsActive; CallRead], false);
     (10, [CallIsActive; CallRead], false);
     (10, [], true)].
Proof. vm_compute. reflexivity. Qed.

(** Once the counter has reached the limit, every call returns 0.0 without
    touching the stream, leaves the counter alone and leaves the degraded
    flag set. *)
Lemma breaker_open_short_circuits dev self es :
  _setup_failed self = false -> processing_mode self = false ->
  stream self = true ->
  _max_read_errors self <= _read_errors self ->
  get_level dev self es =
  Returns {| level := 0; self' := self;
             errors' := (if audio_degraded es then es
                         else set_audio_degraded true es);
             calls := [] |}.
Proof.
  intros H1 H2 H3 H4. unfold get_level. rewrite H1, H2, H3. simpl.
  apply Z.leb_le in H4. now rewrite H4.
Qed.

(** Every failed read adds one to the counter. *)
Lemma failed_read_counts dev self es e :
  _setup_failed self = false -> processing_mode self = false ->
  stream self = true ->
  _read_errors self < _max_read_errors self ->
  fst (get_level_try dev self) = Raises e ->
  exists r, get_level dev self es = Returns r /\
            level r = 0%float /\
            _read_errors (self' r) = _read_errors self + 1.
Proof.
  intros H1 H2 H3 H4 H5. unfold get_level. rewrite H1, H2, H3. simpl.
  apply Z.leb_gt in H4. rewrite H4.
  destruct (get_level_try dev self) as [[[v s1]|e'] cs]; simpl in H5;
    [discriminate H5|]. injection H5 as ->.
  unfold get_level_except. destruct (kind e); eexists; repeat split.
Qed.

End LevelReader.

Section TimerText.

Import Renderers.

(** ** The recording timer *)

Example py_int_truncates :
  py_int 125.7 = Returns 125 /\ py_int (-0.5) = Returns 0 /\
  py_int 125 = Returns 125 /\ py_int (-3.9) = Returns (-3).
Proof. repeat split; vm_compute; reflexivity. Qed.





End TimerText.

Section ErrorBookkeeping.

Import Errors.
#[local] Open Scope nat_scope.

(** ** The consecutive-error bookkeeping of errors.py *)

Lemma key_inj c1 x1 c2 x2 : key c1 x1 = key c2 x2 -> c1 = c2 /\ x1 = x2.
Proof.
  unfold key. destruct c1, c2; cbn; intros H; try congruence;
    split; congruence.
Qed.

Lemma key_eqb c1 x1 c2 x2 :
  c1 <> c2 \/ x1 <> x2 -> String.eqb (key c2 x2) (key c1 x1) = false.
Proof.
  intros H. apply String.eqb_neq. intros E. apply key_inj in E.
  destruct E as [-> ->]. destruct H as [H|H]; now apply H.
Qed.


Lemma is_circuit_open_key c ctx st :
  is_circuit_open c ctx st
  = (_max_consecutive st <=? _consecutive_errors st (key c ctx)).
Proof. reflexivity. Qed.


Lemma record_error_elsewhere c ctx st k :
  k <> key c ctx ->
  _consecutive_errors (record_error c ctx st) k = _consecutive_errors st k.
Proof.
  intros H. unfold record_error, key in *. cbn [_consecutive_errors].
  apply String.eqb_neq in H. now rewrite H.
Qed.

(** X1.  [n] errors recorded in a row for one category and context add [n]
    to the count of their key; the circuit of that key is open exactly when
    the count has reached [_max_consecutive]; an AUDIO_INPUT key that
    reaches it sets [audio_degraded], a UI_RENDER key [rendering_degraded],
    and no other category ever sets a flag. *)
Theorem record_error_threshold (c : ErrorCategory) (ctx : string)
    (st : ErrorState) (n : nat) :
  let st' := Nat.iter n (record_error c ctx) st in
  let count := _consecutive_errors st (key c ctx) in
  let tripped := (0 <? n) && (_max_consecutive st <=? count + n) in
  _consecutive_errors st' (key c ctx) = count + n /\
  _max_consecutive st' = _max_consecutive st /\
  is_circuit_open c ctx st' = (_max_consecutive st <=? count + n) /\
  audio_degraded st'
  = (audio_degraded st
     || match c with AUDIO_INPUT => tripped | _ => false end) /\
  rendering_degraded st'
  = (rendering_degraded st
     || match c with UI_RENDER => tripped | _ => false end).
Proof.
  cbv zeta. induction n as [|n IH].
  - cbn [Nat.iter]. rewrite Nat.add_0_r.
    repeat split; try reflexivity; destruct c; cbn [Nat.ltb Nat.leb andb];
      now rewrite orb_false_r.
  - rewrite Nat.iter_succ.
    remember (Nat.iter n (record_error c ctx) st) as s eqn:Es. clear Es.
    rewrite !is_circuit_open_key in *. unfold record_error, key in *.
    destruct s as [ad rd ce mx], st as [ad0 rd0 ce0 mx0].
    cbn [audio_degraded rendering_degraded _consecutive_errors
         _max_consecutive] in *.
    destruct IH as (I1 & I2 & _ & I4 & I5). subst mx ad rd.
    rewrite String.eqb_refl, I1.
    replace (S (ce0 (name c ++ ":" ++ ctx)%string + n))
      with (ce0 (name c ++ ":" ++ ctx)%string + S n) by lia.
    split; [reflexivity|]. split; [reflexivity|]. split; [reflexivity|].
    set (k := ce0 (name c ++ ":" ++ ctx)%string).
    assert (Mono : (mx0 <=? k + n) = true -> (mx0 <=? k + S n) = true).
    { intros H. apply Nat.leb_le in H. apply Nat.leb_le. lia. }
    assert (Z : (0 <? S n) = true) by reflexivity. rewrite Z. cbn [andb].
    assert (R : forall b, ((mx0 <=? k + S n) || (b || (0 <? n) && (mx0 <=? k + n)))
                          = (b || (mx0 <=? k + S n))).
    { intros b. destruct (mx0 <=? k + n) eqn:E.
      - rewrite (Mono eq_refl). now rewrite !orb_true_r.
      - rewrite andb_false_r, orb_false_r. apply orb_comm. }
    split; destruct c; try (now rewrite orb_false_r); apply R.
Qed.

(** X2.  Errors are counted per category and context: recording or
    clearing one key leaves the count and the circuit of every other
    category or context as they were. *)
Theorem error_keys_are_independent (c c' : ErrorCategory) (ctx ctx' : string)
    (st : ErrorState) :
  c <> c' \/ ctx <> ctx' ->
  _consecutive_errors (record_error c ctx st) (key c' ctx')
  = _consecutive_errors st (key c' ctx') /\
  _consecutive_errors (clear_consecutive c ctx st) (key c' ctx')
  = _consecutive_errors st (key c' ctx') /\
  is_circuit_open c' ctx' (record_error c ctx st) = is_circuit_open c' ctx' st /\
  is_circuit_open c' ctx' (clear_consecutive c ctx st)
  = is_circuit_open c' ctx' st.
Proof.
  intros H. pose proof (key_eqb c ctx c' ctx' H) as E. unfold key in E.
  unfold is_circuit_open, record_error, clear_consecutive, key.
  cbn [_consecutive_errors _max_consecutive].
  rewrite E. repeat split; reflexivity.
Qed.

Lemma error_keys_are_independent_witness :
  (AUDIO_INPUT <> ANIMATION \/ "read"%string <> "read"%string) /\
  is_circuit_open ANIMATION "read" (record_error AUDIO_INPUT "read" initial)
  = is_circuit_open ANIMATION "read" initial.
Proof.
  assert (H : AUDIO_INPUT <> ANIMATION \/ "read"%string <> "read"%string)
    by (left; discriminate).
  split; [exact H|].
  exact (proj1 (proj2 (proj2
           (error_keys_are_independent AUDIO_INPUT ANIMATION "read" "read"
              initial H)))).
Defined.

(** X3.  No sequence of the operations other than [reset] clears a
    degraded flag or changes the threshold.  [clear_consecutive] closes the
    circuit of its key and leaves the flags as they are, so after a success
    the circuit can be closed while the flag still says degraded; [reset]
    clears the flags and closes every circuit. *)
Theorem degraded_flags_are_sticky (ops : list error_op) (st : ErrorState)
    (c : ErrorCategory) (ctx : string) :
  let st' := fold_left (fun s o => run_op o s) ops st in
  (audio_degraded st = true -> audio_degraded st' = true) /\
  (rendering_degraded st = true -> rendering_degraded st' = true) /\
  _max_consecutive st' = _max_consecutive st /\
  (is_circuit_open c ctx (clear_consecutive c ctx st')
   = (_max_consecutive st =? 0) /\
   audio_degraded (clear_consecutive c ctx st') = audio_degraded st' /\
   rendering_degraded (clear_consecutive c ctx st') = rendering_degraded st') /\
  (audio_degraded (reset st') = false /\
   rendering_degraded (reset st') = false /\
   forall c' ctx', is_circuit_open c' ctx' (reset st')
                   = (_max_consecutive st =? 0)).
Proof.
  cbv zeta.
  assert (R : forall c0 x s,
            (audio_degraded s = true ->
             audio_degraded (record_error c0 x s) = true)
            /\ (rendering_degraded s = true ->
                rendering_degraded (record_error c0 x s) = true)).
  { intros c0 x s. unfold record_error.
    cbn [audio_degraded rendering_degraded].
    split; intros H; rewrite H; destruct c0; try reflexivity;
      apply orb_true_r. }
  assert (S : forall o s,
            (audio_degraded s = true -> audio_degraded (run_op o s) = true)
            /\ (rendering_degraded s = true ->
                rendering_degraded (run_op o s) = true)
            /\ _max_consecutive (run_op o s) = _max_consecutive s).
  { intros [c0 x|c0 x|c0 m [e|]|c0 m [e|]] s; cbn [run_op log_error log_fatal];
      try (destruct (R c0 x s) as [R1 R2]; now repeat split);
      try (destruct (R c0 m s) as [R1 R2]; now repeat split);
      now repeat split. }
  assert (F : (audio_degraded st = true ->
               audio_degraded (fold_left (fun s o => run_op o s) ops st) = true)
              /\ (rendering_degraded st = true ->
                  rendering_degraded
                    (fold_left (fun s o => run_op o s) ops st) = true)
              /\ _max_consecutive (fold_left (fun s o => run_op o s) ops st)
                 = _max_consecutive st).
  { revert st. induction ops as [|o ops IH]; intros st; [now repeat split|].
    cbn [fold_left]. destruct (S o st) as (S1 & S2 & S3).
    destruct (IH (run_op o st)) as (I1 & I2 & I3).
    rewrite I3, S3. repeat split; auto. }
  destruct F as (F1 & F2 & F3).
  split; [exact F1|]. split; [exact F2|]. split; [exact F3|].
  set (s := fold_left (fun s o => run_op o s) ops st) in *.
  split.
  - rewrite is_circuit_open_key. unfold clear_consecutive, key.
    cbn [_consecutive_errors _max_consecutive audio_degraded
         rendering_degraded].
    rewrite String.eqb_refl, F3. repeat split.
    destruct (_max_consecutive st); reflexivity.
  - split; [reflexivity|]. split; [reflexivity|].
    intros c' ctx'. rewrite is_circuit_open_key. unfold reset.
    cbn [_consecutive_errors _max_consecutive]. rewrite F3.
    destruct (_max_consecutive st); reflexivity.
Qed.





End ErrorBookkeeping.

Section LevelReaderCalls.

Import Errors Audio.

(** ** [setup], [is_available], [cleanup] and the calls that follow them *)

Lemma get_level_unavailable dev self es :
  is_available self = false \/ processing_mode self = true ->
  exists r, get_level dev self es = Returns r /\ untouched self r /\
            (stream self = false \/ _setup_failed self = true
             \/ processing_mode self = true -> errors' r = es).
Proof.
  intros H. unfold get_level, untouched.
  destruct (_setup_failed self) eqn:F; cbn [orb].
  { eexists. split; [reflexivity|]. repeat split. }
  destruct (processing_mode self) eqn:P.
  { eexists. split; [reflexivity|]. repeat split. }
  destruct (stream self) eqn:S; cbn [negb].
  - destruct H as [H|H]; [|discriminate H].
    unfold is_available in H. rewrite F, S in H. cbn in H.
    apply Z.ltb_ge in H. apply Z.leb_le in H. rewrite H.
    eexists. split; [reflexivity|]. repeat split.
    intros [X|[X|X]]; discriminate X.
  - eexists. split; [reflexivity|]. repeat split.
Qed.

Lemma get_level_available dev self es :
  is_available self = true -> processing_mode self = false ->
  get_level dev self es =
  match get_level_try dev self with
  | (Returns (v, self1), cs) => Returns (mk_level_result v self1 es cs)
  | (Raises e, cs) =>
      let '(v, self1, es1) := get_level_except e self es in
      Returns (mk_level_result v self1 es1 cs)
  end.
Proof.
  intros A P. unfold is_available in A.
  apply andb_prop in A. destruct A as [A A3].
  apply andb_prop in A. destruct A as [A1 A2].
  apply negb_true_iff in A1. apply Z.ltb_lt in A3.
  unfold get_level. rewrite A1, P, A2. cbn [orb negb].
  replace (_max_read_errors self <=? _read_errors self) with false; [reflexivity|].
  symmetry. apply Z.leb_gt. exact A3.
Qed.

Lemma get_level_try_calls dev self : snd (get_level_try dev self) <> [].
Proof.
  unfold get_level_try.
  destruct (is_active dev) as [[|]|e]; cbn; try discriminate.
  destruct (read dev); cbn; discriminate.
Qed.



(** X6.  [get_level] asks the stream (first whether it is active) exactly
    when [is_available()] is true and processing mode is off; in every
    other state it returns 0.0 at once and changes nothing of the
    object. *)
Theorem get_level_asks_stream_iff_available (dev : Device) (self : AudioInput)
    (es : ErrorState) :
  exists r,
    get_level dev self es = Returns r /\
    (calls r = [] <->
     is_available self = false \/ processing_mode self = true) /\
    (calls r <> [] -> hd_error (calls r) = Some CallIsActive) /\
    (calls r = [] -> level r = 0%float /\ self' r = self).
Proof.
  destruct (is_available self) eqn:A, (processing_mode self) eqn:P.
  - destruct (get_level_unavailable dev self es) as [r [E [[U1 [U2 U3]] _]]];
      [right; exact P|].
    exists r. split; [exact E|]. split; [split; auto|].
    split; [intros N; contradiction|auto].
  - pose proof (get_level_available dev self es A P) as E.
    pose proof (get_level_try_calls dev self) as N.
    assert (Hd : hd_error (snd (get_level_try dev self)) = Some CallIsActive).
    { unfold get_level_try.
      destruct (is_active dev) as [[|]|e]; cbn; try reflexivity.
      destruct (read dev); reflexivity. }
    destruct (get_level_try dev self) as [[[v s1]|e] cs]; cbn [snd] in *.
    + eexists. split; [exact E|]. cbn [calls level self'].
      split; [|split; [auto|intros X; contradiction]].
      split; [intros X; contradiction|intros [X|X]; discriminate X].
    + destruct (get_level_except e self es) as [[v s1] es1].
      eexists. split; [exact E|]. cbn [calls level self'].
      split; [|split; [auto|intros X; contradiction]].
      split; [intros X; contradiction|intros [X|X]; discriminate X].
  - destruct (get_level_unavailable dev self es) as [r [E [[U1 [U2 U3]] _]]];
      [left; exact A|].
    exists r. split; [exact E|]. split; [split; auto|].
    split; [intros N; contradiction|auto].
  - destruct (get_level_unavailable dev self es) as [r [E [[U1 [U2 U3]] _]]];
      [left; exact A|].
    exists r. split; [exact E|]. split; [split; auto|].
    split; [intros N; contradiction|auto].
Qed.

(** X7.  [cleanup()] is idempotent and final: the object is unavailable
    afterwards, and a [get_level] that still arrives returns 0.0 without
    touching the closed stream and without recording anything. *)
Theorem cleanup_is_final (a : AudioInput) :
  cleanup (cleanup a) = cleanup a /\
  stream (cleanup a) = false /\ audio (cleanup a) = false /\
  is_available (cleanup a) = false /\
  forall dev es, exists r,
    get_level dev (cleanup a) es = Returns r /\
    untouched (cleanup a) r /\ errors' r = es.
Proof.
  split; [reflexivity|]. split; [reflexivity|]. split; [reflexivity|].
  assert (A : is_available (cleanup a) = false).
  { unfold is_available, cleanup, _cleanup_partial. cbn [stream].
    now rewrite andb_false_r. }
  split; [exact A|]. intros dev es.
  destruct (get_level_unavailable dev (cleanup a) es) as [r [E [U He]]];
    [left; exact A|].
  exists r. split; [exact E|]. split; [exact U|]. apply He. left. reflexivity.
Qed.

(** ** The read-error counter *)






(** X9.  The open breaker is absorbing: once [_read_errors] has reached
    [_max_read_errors], every call of any later sequence returns 0.0,
    touches no stream, leaves the object as it is and leaves
    [audio_degraded] set. *)
Theorem open_breaker_is_absorbing (devs : list Device) (self : AudioInput)
    (es : ErrorState) :
  _setup_failed self = false -> processing_mode self = false ->
  stream self = true ->
  _max_read_errors self <= _read_errors self ->
  List.length (calls_of devs self es) = List.length devs /\
  Forall (fun r => untouched self r /\ audio_degraded (errors' r) = true)
    (calls_of devs self es).
Proof.
  intros H1 H2 H3 H4. revert es.
  induction devs as [|dev devs IH]; intros es.
  - split; [reflexivity|constructor].
  - cbn [calls_of].
    rewrite (breaker_open_short_circuits dev self es H1 H2 H3 H4).
    cbn [self' errors']. destruct (IH (if audio_degraded es then es
                                       else set_audio_degraded true es))
      as [L F].
    split; [cbn [List.length]; now rewrite L|].
    constructor; [|exact F].
    split; [repeat split|]. cbn [errors'].
    destruct (audio_degraded es) eqn:D; [exact D|reflexivity].
Qed.

Lemma open_breaker_is_absorbing_witness :
  _max_read_errors tripped <= _read_errors tripped /\
  List.length (calls_of [dev_ok; dev_ok; dev_ok] tripped initial) = 3%nat.
Proof.
  assert (H : _max_read_errors tripped <= _read_errors tripped)
    by (vm_compute; discriminate).
  split; [exact H|].
  exact (proj1 (open_breaker_is_absorbing [dev_ok; dev_ok; dev_ok] tripped
                  initial eq_refl eq_refl eq_refl H)).
Defined.



(** ** Buffers of unusual length, and silence *)

Lemma length_odd_unpack (data : list byte) :
  Nat.odd (List.length data) = true ->
  struct_unpack_h (Z.of_nat (List.length data) / 2) data
  = Raises (mk_exn StructError "unpack requires a buffer of the format size").
Proof.
  intros O. unfold struct_unpack_h.
  replace (Z.of_nat (List.length data)
           =? 2 * (Z.of_nat (List.length data) / 2)) with false; [reflexivity|].
  symmetry. apply Z.eqb_neq. intros E.
  apply Nat.odd_spec in O. destruct O as [k Hk]. rewrite Hk in E.
  replace (Z.of_nat (2 * k + 1)) with (1 + Z.of_nat k * 2) in E by lia.
  rewrite Z.div_add in E by lia. change (1 / 2) with 0 in E. lia.
Qed.

(** X11.  A read that returns no byte or a single byte gives 0.0 and
    counts neither as a failure nor as a success.  A read that returns an
    odd number of bytes, three or more, fails in [struct.unpack]: the call
    returns 0.0 and counts one read error, with nothing recorded in the
    global error state. *)
Theorem odd_buffer_is_a_read_error (data : list byte) (self : AudioInput)
    (es : ErrorState) :
  is_available self = true -> processing_mode self = false ->
  exists r,
    get_level (dev_reading data) self es = Returns r /\
    ((List.length data <= 1)%nat ->
     level r = 0%float /\ self' r = self /\ errors' r = es) /\
    (Nat.odd (List.length data) = true -> (3 <= List.length data)%nat ->
     level r = 0%float /\ _read_errors (self' r) = _read_errors self + 1 /\
     errors' r = es).
Proof.
  intros A P. rewrite (get_level_available _ self es A P).
  unfold get_level_try, dev_reading. cbn [is_active read].
  set (count := Z.of_nat (List.length data) / 2).
  destruct (count =? 0) eqn:C0.
  - eexists. split; [reflexivity|]. cbn [level self' errors']. split.
    + intros _. repeat split.
    + intros _ L. exfalso. apply Z.eqb_eq in C0. unfold count in C0.
      assert (1 <= Z.of_nat (List.length data) / 2).
      { apply Z.div_le_lower_bound; lia. }
      lia.
  - apply Z.eqb_neq in C0.
    assert (L2 : (2 <= List.length data)%nat).
    { destruct data as [|a [|b data]]; cbn in *; try lia;
        exfalso; apply C0; reflexivity. }
    destruct (Nat.odd (List.length data)) eqn:O.
    + unfold count. rewrite (length_odd_unpack data O).
      eexists. split; [reflexivity|]. cbn. split.
      * intros L. lia.
      * intros _ _. repeat split.
    + destruct (struct_unpack_h count data) as [shorts|e].
      * destruct (math_sqrt _) as [rms|e].
        -- eexists. split; [reflexivity|]. split; [intros L; lia|].
           intros X. discriminate X.
        -- destruct (get_level_except e self es) as [[v s1] es1].
           eexists. split; [reflexivity|]. split; [intros L; lia|].
           intros X. discriminate X.
      * destruct (get_level_except e self es) as [[v s1] es1].
        eexists. split; [reflexivity|]. split; [intros L; lia|].
        intros X. discriminate X.
Qed.

Lemma odd_buffer_is_a_read_error_witness :
  is_available opened = true /\ processing_mode opened = false /\
  exists r,
    get_level (dev_reading [x00; x40; x01]) opened initial = Returns r /\
    _read_errors (self' r) = 1.
Proof.
  split; [reflexivity|]. split; [reflexivity|].
  destruct (odd_buffer_is_a_read_error [x00; x40; x01] opened initial
              eq_refl eq_refl) as [r [E [_ H]]].
  exists r. split; [exact E|].
  exact (proj1 (proj2 (H eq_refl (le_n 3)))).
Defined.

Lemma silence_levels :
  forallb (fun n =>
             match math_sqrt (int_truediv 0 (Z.of_nat n)) with
             | Returns rms =>
                 Leibniz.eqb (py_min (rms / 3000.0)%float 1.0%float) 0%float
             | Raises _ => false
             end) (seq 1 512) = true.
Proof. vm_compute. reflexivity. Qed.

Lemma shorts_of_silence k :
  shorts_of_bytes (repeat x00 (2 * k)) = repeat 0 k.
Proof.
  induction k as [|k IH]; [reflexivity|].
  replace (2 * S k)%nat with (S (S (2 * k))) by lia.
  cbn [repeat shorts_of_bytes]. now rewrite IH.
Qed.

Lemma sum_squares_silence k : sum_squares (repeat 0 k) = 0.
Proof.
  unfold sum_squares. generalize 0 at 2 3. 
  induction k as [|k IH]; intros acc; cbn [repeat fold_left]; [reflexivity|].
  rewrite IH. lia.
Qed.

(** X12.  A buffer of [k] samples of value 0, for the at most 512 frames of
    one read, gives exactly 0.0, and the read counts as a success: the
    counter goes down by one if it was above 0, and nothing is recorded in
    the global error state. *)
Theorem silence_reads_zero (k : nat) (self : AudioInput) (es : ErrorState) :
  is_available self = true -> processing_mode self = false ->
  (1 <= k <= 512)%nat ->
  exists r,
    get_level (dev_reading (repeat x00 (2 * k))) self es = Returns r /\
    level r = 0%float /\
    _read_errors (self' r)
    = (if 0 <? _read_errors self then _read_errors self - 1
       else _read_errors self) /\
    errors' r = es /\
    calls r = [CallIsActive; CallRead].
Proof.
  intros A P Hk. rewrite (get_level_available _ self es A P).
  unfold get_level_try, dev_reading. cbn [is_active read].
  rewrite repeat_length.
  replace (Z.of_nat (2 * k) / 2) with (Z.of_nat k)
    by (replace (Z.of_nat (2 * k)) with (Z.of_nat k * 2) by lia;
        now rewrite Z.div_mul by lia).
  replace (Z.of_nat k =? 0) with false by (symmetry; apply Z.eqb_neq; lia).
  unfold struct_unpack_h. rewrite repeat_length.
  replace (Z.of_nat (2 * k) =? 2 * Z.of_nat k) with true
    by (symmetry; apply Z.eqb_eq; lia).
  rewrite shorts_of_silence, sum_squares_silence.
  pose proof silence_levels as S. rewrite forallb_forall in S.
  specialize (S k ltac:(apply in_seq; lia)).
  destruct (math_sqrt (int_truediv 0 (Z.of_nat k))) as [rms|e];
    [|discriminate S].
  apply Leibniz.eqb_spec in S.
  eexists. split; [reflexivity|]. cbn [level self' errors' calls].
  split; [exact S|]. split; [|split; reflexivity].
  destruct (0 <? _read_errors self) eqn:Z0; [|reflexivity].
  apply Z.ltb_lt in Z0. cbn [_read_errors set_read_errors]. lia.
Qed.

Lemma silence_reads_zero_witness :
  is_available opened = true /\ processing_mode opened = false /\
  (1 <= 2 <= 512)%nat /\
  exists r,
    get_level (dev_reading [x00; x00; x00; x00]) opened initial = Returns r /\
    level r = 0%float.
Proof.
  assert (H : (1 <= 2 <= 512)%nat) by (split; repeat constructor).
  split; [reflexivity|]. split; [reflexivity|]. split; [exact H|].
  destruct (silence_reads_zero 2 opened initial eq_refl eq_refl H)
    as [r [E [L _]]].
  exists r. split; [exact E|exact L].
Defined.

End LevelReaderCalls.

Section Drawing.

Import Renderers.

(** ** Finite floats *)

Lemma is_infinity_spec (x : float) :
  is_infinity x = match Prim2SF x with S754_infinity _ => true | _ => false end.
Proof.
  unfold is_infinity. rewrite FloatAxioms.eqb_spec, FloatAxioms.abs_spec.
  change (Prim2SF infinity) with (S754_infinity false).
  destruct (Prim2SF x) as [s|s| |s m e]; reflexivity.
Qed.

Lemma is_finite_spec (x : float) :
  is_finite x
  = match Prim2SF x with
    | S754_zero _ | S754_finite _ _ _ => true
    | _ => false
    end.
Proof.
  unfold is_finite. rewrite is_infinity_spec.
  destruct (is_nan x) eqn:N.
  - destruct (Prim2SF x) as [s|s| |s m e] eqn:E; try reflexivity;
      exfalso; assert (F : is_nan x = false)
        by (apply is_nan_spec; rewrite E; discriminate);
      rewrite F in N; discriminate N.
  - apply is_nan_spec in N.
    destruct (Prim2SF x) as [s|s| |s m e]; try reflexivity.
    now contradiction N.
Qed.

(** [int(x)] raises exactly on NaN and the infinities. *)
Lemma py_int_raises (x : float) :
  (exists e, py_int x = Raises e) <-> is_finite x = false.
Proof.
  rewrite is_finite_spec. unfold py_int.
  destruct (Prim2SF x) as [s|s| |s m e]; split;
    try (intros [e0 H]; discriminate H); try discriminate; eauto.
Qed.

Lemma clamp_within_l (lo hi x : float) :
  (lo <=? hi)%float = true ->
  within lo hi (py_max lo (py_min hi x)) = true.
Proof.
  intros Hlh. unfold within, py_max, py_min.
  pose proof (leb_not_nan_l _ _ Hlh) as Nl.
  pose proof (leb_not_nan_r _ _ Hlh) as Nh.
  destruct (x <? hi)%float eqn:E1.
  - destruct (lo <? x)%float eqn:E2.
    + now rewrite (ltb_leb _ _ E2), (ltb_leb _ _ E1).
    + now rewrite (leb_refl _ Nl), Hlh.
  - destruct (lo <? hi)%float eqn:E2.
    + now rewrite Hlh, (leb_refl _ Nh).
    + now rewrite (leb_refl _ Nl), Hlh.
Qed.

(** ** [draw_timer]: when something is drawn *)

(** X13.  [draw_timer] draws nothing exactly when the area has no size, the
    morph is below 0.7, the error state is shown, or, in recording mode,
    the difference of the clock and the start time is NaN or infinite (the
    [int()] that raises is caught by the decorator).  In processing mode
    the arc starts at the stored angle, or at 0.0 if that is not finite, so
    the start is always finite, and it spans [1.5 * pi]. *)
Theorem draw_timer_draws_iff (w h : Z) (now p : float) (processing : bool)
    (angle start_time : float) (is_error : bool) :
  (draw_timer w h now p processing angle start_time is_error = Nothing <->
   w <= 0 \/ h <= 0 \/ (p <? 0.7)%float = true \/ is_error = true
   \/ (processing = false /\ is_finite (now - start_time) = false)) /\
  (forall a b,
     draw_timer w h now p processing angle start_time is_error = Spinner a b ->
     processing = true /\ is_finite a = true /\
     a = (if is_finite angle then angle else 0%float) /\
     b = (a + math_pi * 1.5)%float) /\
  (forall s,
     draw_timer w h now p processing angle start_time is_error = Text s ->
     processing = false).
Proof.
  unfold draw_timer.
  destruct (w <=? 0) eqn:W; cbn [orb].
  { apply Z.leb_le in W. split; [tauto|]. split; discriminate. }
  destruct (h <=? 0) eqn:H.
  { apply Z.leb_le in H. split; [tauto|]. split; discriminate. }
  apply Z.leb_gt in W. apply Z.leb_gt in H.
  destruct (p <? 0.7)%float eqn:P.
  { split; [tauto|]. split; discriminate. }
  destruct is_error.
  { split; [tauto|]. split; discriminate. }
  destruct processing.
  - split; [|split].
    + split; [discriminate|].
      intros [X|[X|[X|[X|[X _]]]]]; try lia; discriminate X.
    + intros a b E. injection E as <- <-.
      split; [reflexivity|]. split; [|split; reflexivity].
      destruct (is_finite angle) eqn:F; [exact F|reflexivity].
    + discriminate.
  - pose proof (py_int_raises (now - start_time)) as R.
    unfold elapsed_seconds.
    destruct (py_int (now - start_time)) as [secs|e].
    + split; [|split; [discriminate|reflexivity]].
      split; [discriminate|].
      intros [X|[X|[X|[X|[_ X]]]]]; try lia; try discriminate X.
      apply R in X. destruct X as [e X]. discriminate X.
    + split; [|split; discriminate].
      split; [|reflexivity]. intros _.
      right; right; right; right. split; [reflexivity|].
      apply R. eauto.
Qed.

(** ** [draw_waveform]: what is drawn is in range *)

Lemma all_from_spec (f : Z -> bool) (n : nat) : forall z,
  all_from f n z = true ->
  forall k, z <= k < z + Z.of_nat n -> f k = true.
Proof.
  induction n as [|n IH]; intros z H k Hk; [lia|].
  cbn [all_from] in H. apply andb_prop in H. destruct H as [H0 H1].
  destruct (Z.eq_dec k z) as [->|N]; [exact H0|].
  apply (IH (z + 1) H1). lia.
Qed.

Lemma heights_at_least_four :
  all_from (fun h => (4 <=? float_of_Z h)%float)
    (Z.to_nat (MAX_HEIGHT - 3)) 4 = true.
Proof. vm_compute. reflexivity. Qed.

Lemma height_at_least_four (h : Z) :
  4 <= h <= MAX_HEIGHT -> (4 <=? float_of_Z h)%float = true.
Proof.
  intros H.
  apply (all_from_spec _ _ 4 heights_at_least_four).
  unfold MAX_HEIGHT in *. lia.
Qed.

Lemma content_alpha_unit (p : float) : within 0 1 (content_alpha p) = true.
Proof. unfold content_alpha. cbv zeta. now apply clamp_within_l. Qed.

Lemma sanitize_unit (default x : float) : within 0 1 (sanitize default x) = true.
Proof. unfold sanitize. cbv zeta. now apply clamp_within_l. Qed.

Lemma bar_shape_bounds (h : Z) (start_x gap : float) (i : nat) (val : float) :
  let b := bar_shape_of h start_x gap i val in
  (4 <=? bar_height b)%float = true /\
  within 0.5 2 (bar_radius b) = true /\
  (4 <= h <= MAX_HEIGHT -> (bar_height b <=? float_of_Z h)%float = true).
Proof.
  cbv zeta. unfold bar_shape_of. cbv zeta. cbn [bar_height bar_radius].
  split; [|split].
  - unfold py_max at 1.
    match goal with |- context [(4 <? ?x)%float] =>
      destruct (4 <? x)%float eqn:E end.
    + now apply ltb_leb.
    + reflexivity.
  - change (3 / 1.5)%float with 2%float. now apply clamp_within_l.
  - intros H. pose proof (height_at_least_four h H) as L.
    match goal with |- context [py_min ?x (float_of_Z h)] =>
      pose proof (clamp_within 4 (float_of_Z h) x L) as C end.
    unfold within in C. apply andb_prop in C. tauto.
Qed.

(** X14.  When [draw_waveform] draws, the area has a size and the morph is
    at 0.7 or more, the opacity lies in [[0, 1]], the bars drawn are the
    first [num_bars] entries of [bars], or all of them if there are fewer,
    and whatever the values of the bars (NaN and the infinities included)
    every bar is at least 4 high with arcs of radius in [[0.5, 2]]; for an
    area of height 4 to 32767 no bar is higher than the area. *)
Theorem waveform_bars_are_bounded (w h : Z) (p : float) (bars : list float)
    (num_bars : Z) (overall : float) (alpha : float)
    (shapes : list bar_shape) :
  draw_waveform w h p bars num_bars overall = Some (alpha, shapes) ->
  0 < w /\ 0 < h /\ (p <? 0.7)%float = false /\
  within 0 1 alpha = true /\
  List.length shapes = Nat.min (List.length bars) (Z.to_nat num_bars) /\
  (0 < List.length shapes)%nat /\
  Forall (fun b =>
            (4 <=? bar_height b)%float = true /\
            within 0.5 2 (bar_radius b) = true /\
            (4 <= h <= MAX_HEIGHT ->
             (bar_height b <=? float_of_Z h)%float = true))
    shapes.
Proof.
  unfold draw_waveform.
  destruct (w <=? 0) eqn:W; cbn [orb]; [discriminate|].
  destruct (h <=? 0) eqn:H; [discriminate|].
  destruct (p <? 0.7)%float eqn:P; [discriminate|].
  destruct bars as [|b0 bars]; cbn [orb]; [discriminate|].
  destruct (num_bars <=? 0) eqn:N; [discriminate|].
  apply Z.leb_gt in W, H, N.
  intros E. injection E as <- <-.
  split; [exact W|]. split; [exact H|]. split; [reflexivity|].
  split; [apply content_alpha_unit|].
  assert (L : List.length
                (map (fun iv : nat * float =>
                        bar_shape_of h
                          ((float_of_Z w
                            - (float_of_Z (num_bars * 3)
                               + (2 + sanitize 0 overall * 2)
                                 * float_of_Z (num_bars - 1))) / 2)
                          (2 + sanitize 0 overall * 2) (fst iv) (snd iv))
                   (combine (seq 0 (Z.to_nat num_bars))
                      (firstn (Z.to_nat num_bars) (b0 :: bars))))
              = Nat.min (List.length (b0 :: bars)) (Z.to_nat num_bars)).
  { rewrite length_map, length_combine, length_seq, length_firstn. lia. }
  split; [exact L|]. split.
  - rewrite L. cbn [List.length]. lia.
  - apply Forall_forall. intros b Hb. apply in_map_iff in Hb.
    destruct Hb as [[i v] [<- _]]. apply bar_shape_bounds.
Qed.

Lemma waveform_bars_are_bounded_witness :
  exists alpha shapes,
    draw_waveform 110 24 1.0 [0.1; nan; 5; 0.5]%float 16 nan
    = Some (alpha, shapes) /\
    List.length shapes = 4%nat.
Proof.
  eexists. eexists.
  assert (E : draw_waveform 110 24 1.0 [0.1; nan; 5; 0.5]%float 16 nan
              = Some (content_alpha 1.0,
                      snd (match draw_waveform 110 24 1.0
                                   [0.1; nan; 5; 0.5]%float 16 nan with
                           | Some x => x
                           | None => (0%float, [])
                           end))) by reflexivity.
  split; [exact E|].
  exact (proj1 (proj2 (proj2 (proj2 (proj2
           (waveform_bars_are_bounded _ _ _ _ _ _ _ _ E)))))).
Defined.

End Drawing.

Section OverlayRuns.

Import Overlay Morph.
#[local] Open Scope float_scope.

Section Frames.
Context {X : Type} (obs : World -> X).

Lemma frames_ret {A} (a : A) : frames obs (ret a).
Proof. intros w. reflexivity. Qed.

Lemma frames_lift {A} (o : outcome A) : frames obs (lift o).
Proof. intros w. reflexivity. Qed.

Lemma frames_self : frames obs self.
Proof. intros w. reflexivity. Qed.

Lemma frames_toolkit gtk : frames obs (toolkit gtk).
Proof. intros w. destruct gtk; reflexivity. Qed.

Lemma frames_bind {A B} (m : M A) (k : A -> M B) :
  frames obs m -> (forall a, frames obs (k a)) -> frames obs (bind m k).
Proof.
  intros Hm Hk w. unfold bind. specialize (Hm w).
  destruct (m w) as [w1 [a|e]]; simpl in *.
  - rewrite Hk. exact Hm.
  - exact Hm.
Qed.

Lemma frames_for_each {A} (l : list A) (body : A -> M unit) :
  (forall a, frames obs (body a)) -> frames obs (for_each l body).
Proof.
  intros Hb. induction l as [|x l IH]; simpl.
  - apply frames_ret.
  - apply frames_bind; [apply Hb | intros _; exact IH].
Qed.

Lemma frames_assign (g : WaveformOverlay -> WaveformOverlay) :
  (forall w, obs (with_win (g (win w)) w) = obs w) -> frames obs (assign g).
Proof. intros H w. apply H. Qed.

Lemma frames_guarded (body : M bool) on_error :
  frames obs body -> (forall e, frames obs (on_error e)) ->
  frames obs (guarded body on_error).
Proof.
  intros Hb He w. unfold guarded.
  destruct (_shutting_down (win w)); [reflexivity|].
  specialize (Hb w). destruct (body w) as [w1 [r|e]]; simpl in *.
  - exact Hb.
  - rewrite He. exact Hb.
Qed.
End Frames.

Ltac frame_step :=
  first
    [ apply frames_ret | apply frames_lift | apply frames_self
    | apply frames_toolkit
    | apply frames_bind; [|intros]
    | apply frames_for_each; intros
    | apply frames_assign; intros; reflexivity
    | match goal with
      | |- frames _ (if ?c then _ else _) => destruct c
      | |- frames _ (match ?c with _ => _ end) => destruct c
      | |- frames _ (for_range _ _) => unfold for_range
      | |- frames _ safe_cleanup => intros ?; reflexivity
      | |- frames _ (call_get_level ?g) =>
          let w := fresh "w" in
          intros w; unfold call_get_level;
          destruct (g (audio_input (win w)) (error_state w)); reflexivity
      end ].
Ltac frame := repeat frame_step.

Lemma update_audio_levels_morph g u : frames morph (update_audio_levels g u).
Proof. unfold update_audio_levels, target_bar_step. frame. Qed.

Lemma update_animation_morph gtk : frames morph (update_animation gtk).
Proof. unfold update_animation, bar_step. frame. Qed.

Lemma check_processing_mode_morph p e now gtk :
  frames morph (check_processing_mode p e now gtk).
Proof. unfold check_processing_mode. frame. Qed.

Lemma position_window_morph a b c d gtk :
  frames morph (position_window a b c d gtk).
Proof. unfold position_window. frame. Qed.

(* ------------------------------------------------------------------ *)
(** ** Closed forms of [animate_entrance] *)

Lemma animate_entrance_opening gtk w :
  is_closing (win w) = false ->
  animate_entrance gtk w =
  (with_win (set_animation_progress (rise (animation_progress (win w))) (win w)) w,
   gtk_outcome gtk).
Proof.
  intros H. unfold animate_entrance, bind, self, rise, py_min. rewrite H.
  destruct (animation_progress (win w) <? 1.0) eqn:E1; simpl.
  - destruct (1.0 <? animation_progress (win w) + 0.04) eqn:E2; simpl;
      destruct gtk; reflexivity.
  - destruct gtk; reflexivity.
Qed.

Lemma animate_entrance_closing gtk w :
  is_closing (win w) = true ->
  animate_entrance gtk w =
  if animation_progress (win w) - 0.04 <=? 0 then (torn_down w, Returns false)
  else (with_win (set_animation_progress (animation_progress (win w) - 0.04) (win w)) w,
        gtk_outcome gtk).
Proof.
  intros H. unfold animate_entrance, bind, self, torn_down. rewrite H. simpl.
  destruct (animation_progress (win w) - 0.04 <=? 0) eqn:E1; simpl.
  - destruct (_shutting_down (win w)); reflexivity.
  - destruct gtk; reflexivity.
Qed.

(** ** Membership in a computed list of floats *)

Lemma mem_In p l : mem p l = true <-> In p l.
Proof.
  unfold mem. rewrite existsb_exists. split.
  - intros [q [Hq E]]. apply Leibniz.eqb_spec in E. now subst.
  - intros H. exists p. split; [exact H|]. now apply Leibniz.eqb_spec.
Qed.

Lemma mem_forallb (f : float -> bool) l p :
  forallb f l = true -> mem p l = true -> f p = true.
Proof.
  intros Hall Hp. apply mem_In in Hp.
  rewrite forallb_forall in Hall. now apply Hall.
Qed.

(** ** Every tick acts on the window through its callback *)

Lemma win_step t w :
  win (step t w) = win w \/ win (step t w) = win (fst (callback t w)).
Proof.
  unfold step. destruct (source t) as [src|]; [|now right].
  destruct (existsb (timer_eqb src) (timers w)); [|now left].
  destruct (callback t w) as [w' keep]; simpl.
  destruct keep; now right.
Qed.

Lemma win_guarded body on_error w :
  win (fst (guarded body on_error w)) = win w
  \/ (exists r, snd (body w) = Returns r /\
        win (fst (guarded body on_error w)) = win (fst (body w)))
  \/ (exists e, snd (body w) = Raises e /\
        win (fst (guarded body on_error w)) = win (fst (on_error e (fst (body w))))).
Proof.
  unfold guarded. destruct (_shutting_down (win w)); [now left|].
  destruct (body w) as [w1 [r|e]]; simpl.
  - right; left. now exists r.
  - right; right. now exists e.
Qed.

(** The morph state after any tick other than the entrance tick and the
    close-signal poll is the morph state before it. *)
Lemma callback_morph t w :
  match t with TEntrance _ | TCloseSignal _ => False | _ => True end ->
  morph (fst (callback t w)) = morph w.
Proof.
  revert w.
  destruct t; simpl; intros w H; try contradiction; revert w;
    try (apply frames_guarded; [|intros e w1; reflexivity]).
  - unfold position_window. frame.
  - unfold update_animation, bar_step. frame.
  - unfold check_processing_mode. frame.
  - unfold update_audio_levels, target_bar_step. frame.
  - change (frames morph on_destroy). unfold on_destroy. frame.
Qed.

(* ------------------------------------------------------------------ *)
(** ** The progress values a running overlay can hold *)

Lemma rising_closed : forallb (fun p => mem (rise p) rising) rising = true.
Proof. vm_compute. reflexivity. Qed.

Lemma levels_closed : forallb (fun p => mem (fall p) levels) levels = true.
Proof. vm_compute. reflexivity. Qed.

Lemma rising_levels : forallb (fun p => mem p levels) rising = true.
Proof. vm_compute. reflexivity. Qed.


Lemma rising_grows :
  forallb (fun p => (p <=? rise p) && implb (p <? 1.0) (p <? rise p)) rising
  = true.
Proof. vm_compute. reflexivity. Qed.

Lemma rising_transitive :
  forallb (fun a => forallb (fun b => forallb (fun c =>
     implb ((a <=? b) && (b <=? c)) (a <=? c)) rising) rising) rising = true.
Proof. vm_compute. reflexivity. Qed.



(** What the entrance tick, as GLib calls it, does to the morph state. *)
Lemma safe_entrance_morph gtk w :
  let p := animation_progress (win w) in
  let c := is_closing (win w) in
  let m' := morph (fst (_safe_animate_entrance gtk w)) in
  m' = (p, c) \/ m' = ((if c then fall p else rise p), c) \/ m' = (1.0, c).
Proof.
  cbv zeta. unfold _safe_animate_entrance, guarded.
  destruct (_shutting_down (win w)); [now left|].
  destruct (is_closing (win w)) eqn:C.
  - rewrite (animate_entrance_closing gtk w C). unfold fall.
    destruct (animation_progress (win w) - 0.04 <=? 0) eqn:E.
    + right; left. unfold torn_down, morph; simpl.
      destruct (_shutting_down (win w)); simpl; now rewrite C.
    + destruct gtk as [e|]; simpl; unfold morph; simpl; rewrite C;
        [now right; right | now right; left].
  - rewrite (animate_entrance_opening gtk w C).
    destruct gtk as [e|]; simpl; unfold morph; simpl; rewrite C;
      [now right; right | now right; left].
Qed.

Lemma safe_close_signal_morph c w :
  let m' := morph (fst (_safe_check_close_signal c w)) in
  m' = morph w \/ m' = (animation_progress (win w), true).
Proof.
  cbv zeta. unfold _safe_check_close_signal, guarded.
  destruct (_shutting_down (win w)); [now left|].
  unfold check_close_signal, bind, self; simpl.
  destruct (c && negb (is_closing (win w))); simpl; [now right | now left].
Qed.

(** The possible morph states after one event. *)
Lemma step_morph t w :
  let p := animation_progress (win w) in
  let c := is_closing (win w) in
  let m' := morph (step t w) in
  m' = (p, c) \/ m' = ((if c then fall p else rise p), c) \/ m' = (1.0, c)
  \/ m' = (p, true).
Proof.
  cbv zeta.
  assert (E : morph (step t w) = morph w
              \/ morph (step t w) = morph (fst (callback t w))).
  { unfold morph. destruct (win_step t w) as [H|H]; rewrite H; auto. }
  destruct E as [E|E]; [now left|]. rewrite E.
  destruct t; try (left; apply callback_morph; exact I).
  - destruct (safe_entrance_morph gtk w) as [H|[H|H]]; simpl; auto.
  - destruct (safe_close_signal_morph close_file w) as [H|H]; simpl; auto.
Qed.

Lemma step_progress_ok t w : progress_ok w -> progress_ok (step t w).
Proof.
  intros [HL HR]. unfold progress_ok.
  pose proof (step_morph t w) as H. cbv zeta in H. unfold morph in H.
  assert (L1 : mem 1.0 levels = true) by (vm_compute; reflexivity).
  assert (R1 : mem 1.0 rising = true) by (vm_compute; reflexivity).
  destruct H as [H|[H|[H|H]]]; injection H as -> ->.
  - auto.
  - destruct (is_closing (win w)) eqn:C.
    + split; [|discriminate].
      exact (mem_forallb _ _ _ levels_closed HL).
    + specialize (HR eq_refl).
      pose proof (mem_forallb _ _ _ rising_closed HR) as HR'.
      split; [|auto].
      exact (mem_forallb _ _ _ rising_levels HR').
  - auto.
  - split; [exact HL | discriminate].
Qed.

Lemma init_progress_ok now ev : progress_ok (init now ev).
Proof.
  unfold init. destruct (Audio.setup ev Audio.new Errors.initial) as [[a es] b].
  split; intros; vm_compute; reflexivity.
Qed.

Lemma run_app ts1 ts2 w : run (ts1 ++ ts2) w = run ts2 (run ts1 w).
Proof. unfold run. apply fold_left_app. Qed.

Lemma run_progress_ok ts w : progress_ok w -> progress_ok (run ts w).
Proof.
  revert w. induction ts as [|t ts IH]; intros w H; simpl; [exact H|].
  apply IH, step_progress_ok, H.
Qed.

(** The closing flag is never cleared. *)
Lemma step_closing t w :
  is_closing (win w) = true -> is_closing (win (step t w)) = true.
Proof.
  intros C. pose proof (step_morph t w) as H. cbv zeta in H.
  unfold morph in H. rewrite C in H.
  destruct H as [H|[H|[H|H]]]; injection H as _ ->; reflexivity.
Qed.

(* ------------------------------------------------------------------ *)
(** ** Opening: the progress never goes down *)

Lemma run_opening ts w :
  progress_ok w ->
  is_closing (win (run ts w)) = false ->
  is_closing (win w) = false /\
  (animation_progress (win w) <=? animation_progress (win (run ts w))) = true /\
  (animation_progress (win w) = 1.0 ->
   animation_progress (win (run ts w)) = 1.0).
Proof.
  revert w. induction ts as [|t ts IH]; intros w Hok Hc; simpl in *.
  - destruct Hok as [_ HR]. specialize (HR Hc).
    split; [exact Hc|]. split; [|auto].
    pose proof (mem_forallb _ _ _ rising_grows HR) as G.
    apply andb_prop in G. destruct G as [G _].
    assert (T : forallb (fun p => p <=? p) rising = true)
      by (vm_compute; reflexivity).
    exact (mem_forallb _ _ _ T HR).
  - pose proof (step_progress_ok t w Hok) as Hok1.
    destruct (IH (step t w) Hok1 Hc) as [C1 [L1 S1]].
    assert (C0 : is_closing (win w) = false).
    { destruct (is_closing (win w)) eqn:C; [|reflexivity].
      rewrite (step_closing t w C) in C1. discriminate C1. }
    split; [exact C0|].
    destruct Hok as [_ HR]. specialize (HR C0).
    destruct Hok1 as [_ HR1]. specialize (HR1 C1).
    pose proof (run_progress_ok ts (step t w) (step_progress_ok t w
                  (conj (mem_forallb _ _ _ rising_levels HR) (fun _ => HR))))
      as [_ HR2].
    specialize (HR2 Hc).
    pose proof (step_morph t w) as H. cbv zeta in H. unfold morph in H.
    rewrite C0 in H.
    assert (Hstep :
      (animation_progress (win w) <=? animation_progress (win (step t w))) = true
      /\ (animation_progress (win w) = 1.0 ->
          animation_progress (win (step t w)) = 1.0)).
    { destruct H as [H|[H|[H|H]]]; injection H as Hp Hcl.
      - rewrite Hp. split; [|auto].
        assert (T : forallb (fun p => p <=? p) rising = true)
          by (vm_compute; reflexivity).
        exact (mem_forallb _ _ _ T HR).
      - rewrite Hp. split.
        + pose proof (mem_forallb _ _ _ rising_grows HR) as G.
          apply andb_prop in G. now destruct G.
        + intros ->. vm_compute. reflexivity.
      - rewrite Hp. split; [|auto].
        assert (T : forallb (fun p => p <=? 1.0) rising = true)
          by (vm_compute; reflexivity).
        exact (mem_forallb _ _ _ T HR).
      - rewrite Hcl in C1. discriminate C1. }
    destruct Hstep as [L0 S0]. split; [|auto].
    pose proof (mem_forallb _ _ _ rising_transitive HR) as T1. cbv beta in T1.
    pose proof (mem_forallb _ _ _ T1 HR1) as T2. cbv beta in T2.
    pose proof (mem_forallb _ _ _ T2 HR2) as T3. cbv beta in T3.
    rewrite L0, L1 in T3. exact T3.
Qed.

(** C4.  Without a close request the entrance handler moves
    [animation_progress] from [p] to [min(p + 0.04, 1.0)] while [p < 1.0],
    which is a strict increase, and leaves it alone at 1.0; over any
    further run of the event loop in which no close is requested the
    progress never drops below [p], and once it is 1.0 it stays 1.0. *)
Theorem morph_monotonic (now : float) (ev : Audio.setup_event) (ts : list tick) :
  let w := run ts (init now ev) in
  is_closing (win w) = false ->
  let p := animation_progress (win w) in
  (forall gtk,
     let p' := animation_progress (win (fst (animate_entrance gtk w))) in
     (p <=? p') = true /\
     ((p <? 1.0) = true -> p' = py_min (p + 0.04) 1.0 /\ (p <? p') = true) /\
     (p = 1.0 -> p' = 1.0)) /\
  (forall ts',
     let w' := run ts' w in
     is_closing (win w') = false ->
     (p <=? animation_progress (win w')) = true /\
     (p = 1.0 -> animation_progress (win w') = 1.0)).
Proof.
  cbv zeta. intros C.
  pose proof (run_progress_ok ts _ (init_progress_ok now ev)) as Hok.
  split.
  - intros gtk. rewrite (animate_entrance_opening gtk _ C). simpl.
    destruct Hok as [_ HR]. specialize (HR C).
    pose proof (mem_forallb _ _ _ rising_grows HR) as G.
    apply andb_prop in G. destruct G as [G1 G2].
    split; [exact G1|]. split.
    + intros Hlt. rewrite Hlt in G2. simpl in G2. split; [|exact G2].
      unfold rise. now rewrite Hlt.
    + intros ->. vm_compute. reflexivity.
  - intros ts' C'. destruct (run_opening ts' _ Hok C') as [_ [L S]]. auto.
Qed.

Lemma morph_monotonic_witness :
  let w := run [TEntrance None; TEntrance None] (init 0 Audio.Opened) in
  is_closing (win w) = false /\
  animation_progress (win w) = 0.08 /\
  animation_progress (win (fst (animate_entrance None w))) = 0.12.
Proof.
  pose proof (morph_monotonic 0 Audio.Opened [TEntrance None; TEntrance None]
                eq_refl) as [H _].
  destruct (H None) as [_ [H2 _]].
  split; [reflexivity|]. split; [vm_compute; reflexivity|].
  rewrite (proj1 (H2 eq_refl)). vm_compute. reflexivity.
Defined.

(* ------------------------------------------------------------------ *)
(** ** Closing: the progress runs down to 0 and the window is torn down *)






(* ------------------------------------------------------------------ *)
(** ** Teardown happens once *)

Lemma count_app e l1 l2 : count e (l1 ++ l2) = (count e l1 + count e l2)%nat.
Proof. unfold count. now rewrite filter_app, length_app. Qed.

Lemma on_destroy_latched w :
  _shutting_down (win w) = true -> on_destroy w = (w, Returns tt).
Proof. intros H. unfold on_destroy, bind, self. now rewrite H. Qed.

Lemma on_destroy_open w :
  _shutting_down (win w) = false ->
  latch (fst (on_destroy w)) = (true, effects w ++ [AudioCleanup; MainQuit]).
Proof. intros H. unfold on_destroy, bind, self. now rewrite H. Qed.

Lemma guarded_latched body on_error w :
  _shutting_down (win w) = true -> guarded body on_error w = (w, false).
Proof. intros H. unfold guarded. now rewrite H. Qed.

Lemma step_latched t w :
  _shutting_down (win w) = true -> latch (step t w) = latch w.
Proof.
  intros H. unfold step.
  destruct (source t) as [src|] eqn:Es.
  - destruct (existsb (timer_eqb src) (timers w)); [|reflexivity].
    assert (E : callback t w = (w, false)).
    { destruct t; simpl; try apply guarded_latched; try exact H.
      discriminate Es. }
    rewrite E. unfold latch; simpl. reflexivity.
  - destruct t; try discriminate Es. simpl.
    now rewrite (on_destroy_latched w H).
Qed.

(** The latch state after any callback other than the entrance tick and
    the destroy signal is the one before it. *)
Lemma callback_latch t w :
  match t with TEntrance _ | TDestroy => False | _ => True end ->
  latch (fst (callback t w)) = latch w.
Proof.
  revert w.
  destruct t; simpl; intros w H; try contradiction; revert w;
    apply frames_guarded; try (intros e w1; reflexivity).
  - unfold position_window. frame.
  - unfold update_animation, bar_step. frame.
  - unfold check_processing_mode. frame.
  - unfold update_audio_levels, target_bar_step. frame.
  - unfold check_close_signal. frame.
Qed.

Lemma latch_step_callback t w :
  latch (step t w) = latch w \/ latch (step t w) = latch (fst (callback t w)).
Proof.
  unfold step. destruct (source t) as [src|]; [|now right].
  destruct (existsb (timer_eqb src) (timers w)); [|now left].
  destruct (callback t w) as [w' keep]; simpl.
  destruct keep; now right.
Qed.

Lemma safe_entrance_latch gtk w :
  _shutting_down (win w) = false ->
  latch (fst (_safe_animate_entrance gtk w)) = latch w
  \/ latch (fst (_safe_animate_entrance gtk w))
     = (true, effects w ++ [AudioCleanup; MainQuit]).
Proof.
  intros S. unfold _safe_animate_entrance, guarded. rewrite S.
  destruct (is_closing (win w)) eqn:C.
  - rewrite (animate_entrance_closing gtk w C).
    destruct (animation_progress (win w) - 0.04 <=? 0).
    + right. unfold torn_down, latch; simpl. now rewrite S.
    + left. destruct gtk; reflexivity.
  - rewrite (animate_entrance_opening gtk w C).
    left. destruct gtk; reflexivity.
Qed.

Lemma step_latch t w :
  latch (step t w) = latch w
  \/ (_shutting_down (win w) = false /\
      latch (step t w) = (true, effects w ++ [AudioCleanup; MainQuit])).
Proof.
  destruct (_shutting_down (win w)) eqn:S.
  - left. now apply step_latched.
  - destruct (latch_step_callback t w) as [H|H]; [now left|]. rewrite H.
    destruct t; try (left; apply callback_latch; exact I).
    + destruct (safe_entrance_latch gtk w S) as [E|E]; auto.
    + right. split; [reflexivity|]. simpl. now apply on_destroy_open.
Qed.

Lemma run_cleaned_once ts w : cleaned_once w -> cleaned_once (run ts w).
Proof.
  revert w. induction ts as [|t ts IH]; intros w H; simpl; [exact H|].
  apply IH. destruct H as [H1 H2]. unfold cleaned_once.
  destruct (step_latch t w) as [E|[S E]]; unfold latch in E;
    injection E as -> ->.
  - now split.
  - rewrite S in H1, H2. rewrite !count_app, H1, H2. now split.
Qed.

Lemma step_program_latched t w :
  _shutting_down (win w) = true -> program (step t w) = program w.
Proof.
  intros H. unfold step.
  destruct (source t) as [src|] eqn:Es.
  - destruct (existsb (timer_eqb src) (timers w)); [|reflexivity].
    assert (E : callback t w = (w, false)).
    { destruct t; simpl; try apply guarded_latched; try exact H.
      discriminate Es. }
    rewrite E. reflexivity.
  - destruct t; try discriminate Es. simpl.
    now rewrite (on_destroy_latched w H).
Qed.

(** C3.  Along every run of the event loop each cleanup call has been made
    exactly once if the shutdown latch is set and never otherwise.  From a
    state with the latch open, the destroy signal performs the cleanup, and
    so does the entrance tick that takes a closing window to progress 0;
    either one sets the latch, and any event that comes after it, the other
    trigger included, leaves the window object, the error state and the
    list of cleanup calls as they are. *)
Theorem teardown_once (now : float) (ev : Audio.setup_event) (ts : list tick)
    (gtk : option exn) :
  let w := run ts (init now ev) in
  let once := effects w ++ [AudioCleanup; MainQuit] in
  (count AudioCleanup (effects w) = (if _shutting_down (win w) then 1 else 0)%nat
   /\ count MainQuit (effects w) = (if _shutting_down (win w) then 1 else 0)%nat)
  /\
  (_shutting_down (win w) = false ->
   (effects (destroy w) = once
    /\ _shutting_down (win (destroy w)) = true
    /\ forall t, program (step t (destroy w)) = program (destroy w))
   /\
   (entrance_installed w = true ->
    is_closing (win w) = true ->
    (animation_progress (win w) - 0.04 <=? 0) = true ->
    effects (morph_tick gtk w) = once
    /\ _shutting_down (win (morph_tick gtk w)) = true
    /\ forall t, program (step t (morph_tick gtk w)) = program (morph_tick gtk w)))
  /\
  (_shutting_down (win w) = true ->
   program (destroy w) = program w /\ program (morph_tick gtk w) = program w).
Proof.
  cbv zeta. set (w := run ts (init now ev)).
  split; [|split].
  - apply run_cleaned_once. unfold init.
    destruct (Audio.setup ev Audio.new Errors.initial) as [[a es] b].
    split; reflexivity.
  - intros S. split.
    + assert (L : latch (destroy w)
                  = (true, effects w ++ [AudioCleanup; MainQuit])).
      { unfold destroy, step; simpl. now apply on_destroy_open. }
      unfold latch in L. injection L as L1 L2.
      split; [exact L2|]. split; [exact L1|].
      intros t. now apply step_program_latched.
    + intros T C E.
      assert (L : latch (morph_tick gtk w)
                  = (true, effects w ++ [AudioCleanup; MainQuit])).
      { unfold morph_tick, step; simpl.
        unfold entrance_installed in T. rewrite T.
        unfold _safe_animate_entrance, guarded. rewrite S.
        rewrite (animate_entrance_closing gtk w C), E.
        unfold torn_down, latch; simpl. now rewrite S. }
      unfold latch in L. injection L as L1 L2.
      split; [exact L2|]. split; [exact L1|].
      intros t. now apply step_program_latched.
  - intros S. split; now apply step_program_latched.
Qed.

Lemma teardown_once_counts :
  let w := run [TCloseSignal true; TEntrance None; TDestroy; TEntrance None]
             (init 0 Audio.Opened) in
  effects w = [AudioCleanup; MainQuit].
Proof. vm_compute. reflexivity. Qed.

(* ------------------------------------------------------------------ *)
(** ** Processing mode freezes the waveform *)

Lemma update_audio_levels_processing g u w :
  processing_mode (win w) = true ->
  update_audio_levels g u w = (w, Returns true).
Proof. intros H. unfold update_audio_levels, bind, self. now rewrite H. Qed.

Lemma update_animation_processing gtk w :
  processing_mode (win w) = true ->
  update_animation gtk w =
  (with_win (set_spinner_angle (spin (spinner_angle (win w))) (win w)) w,
   gtk_outcome gtk).
Proof.
  intros H. unfold update_animation, bind, self, spin. rewrite H. simpl.
  destruct (two_pi <? spinner_angle (win w) + 0.15); simpl;
    destruct gtk; reflexivity.
Qed.

Lemma callback_waveform_processing t w :
  processing_mode (win w) = true ->
  waveform (fst (callback t w)) = waveform w
  /\ processing_mode (win (fst (callback t w))) = true.
Proof.
  intros P.
  assert (G : forall body on_error,
            (waveform (fst (body w)) = waveform w
             /\ processing_mode (win (fst (body w))) = true) ->
            (forall e w1, waveform (fst (on_error e w1)) = waveform w1
               /\ processing_mode (win (fst (on_error e w1)))
                  = processing_mode (win w1)) ->
            waveform (fst (guarded body on_error w)) = waveform w
            /\ processing_mode (win (fst (guarded body on_error w))) = true).
  { intros body on_error [Hb1 Hb2] He. unfold guarded.
    destruct (_shutting_down (win w)); [now split|].
    destruct (body w) as [w1 [r|e]]; simpl in *; [now split|].
    destruct (He e w1) as [He1 He2]. rewrite He1, He2. now split. }
  destruct t; simpl; try (apply G; [|intros e w1; now split]).
  - split.
    + revert w P G. intros w _ _. revert w.
      change (frames waveform
                (position_window width height screen_width screen_height gtk)).
      unfold position_window. frame.
    + rewrite <- P. revert w P G. intros w _ _. revert w.
      change (frames (fun w => processing_mode (win w))
                (position_window width height screen_width screen_height gtk)).
      unfold position_window. frame.
  - rewrite (update_animation_processing gtk w P). now split.
  - unfold check_processing_mode, bind, self. rewrite P.
    rewrite andb_false_r. simpl.
    destruct error_file; simpl; [destruct gtk; simpl|]; now split.
  - rewrite (update_audio_levels_processing get_level uniform w P). now split.
  - split.
    + revert w P G. intros w _ _. revert w.
      change (frames waveform (animate_entrance gtk)).
      unfold animate_entrance, entrance_tail. frame.
    + rewrite <- P. revert w P G. intros w _ _. revert w.
      change (frames (fun w => processing_mode (win w)) (animate_entrance gtk)).
      unfold animate_entrance, entrance_tail. frame.
  - unfold check_close_signal, bind, self. simpl.
    destruct (close_file && negb (is_closing (win w))); simpl; now split.
  - unfold on_destroy, bind, self.
    destruct (_shutting_down (win w)); simpl; now split.
Qed.

(** C10.  In processing mode the audio tick returns at once, the animation
    tick assigns [spinner_angle] only, and no event of the loop changes
    [bars], [target_bars], the level history or [overall_audio_level]; the
    mode itself stays on. *)
Theorem processing_freezes_waveform (w : World) :
  processing_mode (win w) = true ->
  (forall g u, update_audio_levels g u w = (w, Returns true)) /\
  (forall gtk,
     fst (update_animation gtk w)
     = with_win (set_spinner_angle (spin (spinner_angle (win w))) (win w)) w) /\
  (forall t,
     let w' := step t w in
     bars (win w') = bars (win w) /\
     target_bars (win w') = target_bars (win w) /\
     audio_levels (win w') = audio_levels (win w) /\
     overall_audio_level (win w') = overall_audio_level (win w) /\
     processing_mode (win w') = true) /\
  (forall ts, waveform (run ts w) = waveform w).
Proof.
  intros P. split; [|split; [|split]].
  - intros g u. now apply update_audio_levels_processing.
  - intros gtk. now rewrite (update_animation_processing gtk w P).
  - intros t. cbv zeta.
    destruct (callback_waveform_processing t w P) as [H1 H2].
    unfold waveform in H1.
    destruct (win_step t w) as [E|E]; rewrite E.
    + repeat split; auto.
    + injection H1 as -> -> -> ->. repeat split; auto.
  - intros ts. revert w P. induction ts as [|t ts IH]; intros w P; simpl.
    + reflexivity.
    + destruct (callback_waveform_processing t w P) as [H1 H2].
      assert (E : waveform (step t w) = waveform w
                  /\ processing_mode (win (step t w)) = true).
      { unfold waveform in *.
        destruct (win_step t w) as [E|E]; rewrite E; auto. }
      destruct E as [E1 E2]. rewrite (IH _ E2). exact E1.
Qed.

(* ------------------------------------------------------------------ *)
(** ** The shape of the waveform lists *)

Lemma length16 (l : list float) :
  List.length l = 16%nat ->
  exists a0 a1 a2 a3 a4 a5 a6 a7 a8 a9 a10 a11 a12 a13 a14 a15,
    l = [a0; a1; a2; a3; a4; a5; a6; a7; a8; a9; a10; a11; a12; a13; a14; a15].
Proof.
  intros H.
  do 16 (destruct l as [|? l]; [discriminate H|]).
  destruct l; [|discriminate H].
  repeat eexists.
Qed.

(** *** [update_animation] outside processing mode *)

Lemma update_animation_bars gtk w :
  shaped w ->
  processing_mode (win w) = false ->
  update_animation gtk w =
  (with_win (set_bars (smooth_all (target_bars (win w)) (bars (win w))) (win w)) w,
   gtk_outcome gtk).
Proof.
  intros (Hn & Hb & Ht & _) P.
  destruct w as [[st pm io pst sd ap ic ty cy nb bs tb sa ai al oa] es ef tm].
  simpl in *. subst nb pm.
  destruct (length16 bs Hb) as (b0&b1&b2&b3&b4&b5&b6&b7&b8&b9&b10&b11&b12&b13&b14&b15&->).
  destruct (length16 tb Ht) as (t0&t1&t2&t3&t4&t5&t6&t7&t8&t9&t10&t11&t12&t13&t14&t15&->).
  destruct gtk; vm_compute; reflexivity.
Qed.

(** *** Loops as folds *)

Lemma for_each_fold {A} (P : World -> Prop) (l : list A)
    (body : A -> M unit) (f : A -> World -> World) :
  (forall a w, In a l -> P w -> body a w = (f a w, Returns tt) /\ P (f a w)) ->
  forall w, P w ->
    for_each l body w = (fold_left (fun w a => f a w) l w, Returns tt)
    /\ P (fold_left (fun w a => f a w) l w).
Proof.
  induction l as [|x l IH]; intros Hb w Hw; simpl.
  - now split.
  - unfold bind. destruct (Hb x w (or_introl eq_refl) Hw) as [E Hw'].
    rewrite E. apply IH; [|exact Hw'].
    intros a w1 Ha. apply Hb. now right.
Qed.

Lemma length_replace_nth l i v :
  List.length (replace_nth l i v) = List.length l.
Proof.
  revert i. induction l as [|x l IH]; intros [|i]; simpl; auto.
Qed.

Lemma nth_error_replace_nth l i v :
  (i < List.length l)%nat -> nth_error (replace_nth l i v) i = Some v.
Proof.
  revert i. induction l as [|x l IH]; intros [|i] H; simpl in *;
    try lia; auto. apply IH. lia.
Qed.

Lemma replace_nth_twice l i v v' :
  replace_nth (replace_nth l i v) i v' = replace_nth l i v'.
Proof.
  revert i. induction l as [|x l IH]; intros [|i]; simpl; auto.
  now rewrite IH.
Qed.

Lemma target_bar_step_eq rf i w a :
  nth_error (audio_levels (win w)) (num_bars (win w) - 1 - i) = Some a ->
  (i < List.length (target_bars (win w)))%nat ->
  target_bar_step rf i w =
  (with_win (set_target_bars
               (replace_nth (target_bars (win w)) i (cap_floor (a * rf)))
               (win w)) w,
   Returns tt).
Proof.
  intros Ha Hi.
  unfold target_bar_step, bind, self, lift, getitem, setitem, assign, cap_floor.
  rewrite Ha. simpl.
  apply Nat.ltb_lt in Hi. rewrite Hi. simpl.
  apply Nat.ltb_lt in Hi.
  rewrite (nth_error_replace_nth _ _ _ Hi).
  destruct (py_min (a * rf) 1.0 <? 0.1); simpl; [|reflexivity].
  rewrite length_replace_nth.
  apply Nat.ltb_lt in Hi. rewrite Hi. simpl.
  now rewrite replace_nth_twice.
Qed.

(** *** [update_audio_levels] outside processing mode, as the specification
    words it *)

Lemma target_loop u w :
  num_bars (win w) = NUM_BARS ->
  List.length (target_bars (win w)) = NUM_BARS ->
  List.length (audio_levels (win w)) = NUM_BARS ->
  for_range NUM_BARS (fun i => target_bar_step (u i) i) w =
  (fold_left (fun w i => write_target u i w) (seq 0 NUM_BARS) w, Returns tt).
Proof.
  intros Hn Ht Ha. unfold for_range.
  refine (proj1 (for_each_fold
            (fun w => num_bars (win w) = NUM_BARS
                      /\ List.length (target_bars (win w)) = NUM_BARS
                      /\ List.length (audio_levels (win w)) = NUM_BARS)
            _ _ (write_target u) _ w (conj Hn (conj Ht Ha)))).
  intros i w1 Hi (Hn1 & Ht1 & Ha1). apply in_seq in Hi.
  split.
  - unfold write_target. apply target_bar_step_eq; [|lia].
    apply nth_error_nth'. lia.
  - unfold write_target; simpl. rewrite length_replace_nth. auto.
Qed.

Lemma update_audio_levels_recording g u w r :
  shaped w ->
  processing_mode (win w) = false ->
  g (audio_input (win w)) (error_state w) = Returns r ->
  update_audio_levels g u w =
  (with_error_state (Audio.errors' r)
     (with_win (spec_audio_tick (Audio.level r) u
                  (set_audio_input (Audio.self' r) (win w))) w),
   Returns true).
Proof.
  intros (Hn & _ & Ht & Ha) P Hg.
  unfold update_audio_levels, bind at 1 2, self, call_get_level.
  rewrite P, Hg.
  destruct r as [lv a' es' cs].
  destruct w as [[st pm io pst sd ap ic ty cy nb bs tb sa ai al oa] es ef tm].
  simpl in *. subst nb pm.
  destruct (length16 tb Ht) as (t0&t1&t2&t3&t4&t5&t6&t7&t8&t9&t10&t11&t12&t13&t14&t15&->).
  destruct (length16 al Ha) as (h0&h1&h2&h3&h4&h5&h6&h7&h8&h9&h10&h11&h12&h13&h14&h15&->).
  unfold bind, assign, lift, pop0, self. cbn -[for_range NUM_BARS].
  rewrite target_loop by reflexivity.
  vm_compute. reflexivity.
Qed.

Lemma update_audio_levels_raises g u w e :
  processing_mode (win w) = false ->
  g (audio_input (win w)) (error_state w) = Raises e ->
  update_audio_levels g u w = (w, Raises e).
Proof.
  intros P Hg. unfold update_audio_levels, bind, self, call_get_level.
  now rewrite P, Hg.
Qed.

(* ------------------------------------------------------------------ *)
(** ** Ranges of the state along a run *)

Lemma callback_lists t w :
  match t with TAudio _ _ | TAnimation _ => False | _ => True end ->
  lists_state (fst (callback t w)) = lists_state w.
Proof.
  revert w.
  destruct t; simpl; intros w H; try contradiction; revert w;
    try (apply frames_guarded; [|intros e w1; reflexivity]).
  - unfold position_window. frame.
  - unfold check_processing_mode. frame.
  - unfold animate_entrance, entrance_tail. frame.
  - unfold check_close_signal. frame.
  - change (frames lists_state on_destroy). unfold on_destroy. frame.
Qed.

Lemma callback_spinner t w :
  match t with TProcessingMode _ _ _ _ | TAnimation _ => False | _ => True end ->
  spinner_angle (win (fst (callback t w))) = spinner_angle (win w).
Proof.
  revert w.
  destruct t; simpl; intros w H; try contradiction; revert w;
    try (apply (frames_guarded (fun w => spinner_angle (win w)));
         [|intros e w1; reflexivity]).
  - unfold position_window. frame.
  - unfold update_audio_levels, target_bar_step. frame.
  - unfold animate_entrance, entrance_tail. frame.
  - unfold check_close_signal. frame.
  - change (frames (fun w => spinner_angle (win w)) on_destroy).
    unfold on_destroy. frame.
Qed.

(** What the animation tick does to the window object. *)
Lemma safe_update_animation_win gtk w :
  shaped w ->
  let s := win w in
  let s' := win (fst (_safe_update_animation gtk w)) in
  s' = s
  \/ s' = set_spinner_angle (spin (spinner_angle s)) s
  \/ s' = set_bars (smooth_all (target_bars s) (bars s)) s.
Proof.
  intros Hs. cbv zeta. unfold _safe_update_animation, guarded.
  destruct (_shutting_down (win w)); [now left|].
  destruct (processing_mode (win w)) eqn:P.
  - rewrite (update_animation_processing gtk w P).
    right; left. destruct gtk; reflexivity.
  - rewrite (update_animation_bars gtk w Hs P).
    right; right. destruct gtk; reflexivity.
Qed.

(** What the audio tick does to the window object. *)
Lemma safe_update_audio_levels_win g u w :
  shaped w ->
  let s := win w in
  let s' := win (fst (_safe_update_audio_levels g u w)) in
  s' = s
  \/ exists r, g (audio_input s) (error_state w) = Returns r /\
       s' = spec_audio_tick (Audio.level r) u (set_audio_input (Audio.self' r) s).
Proof.
  intros Hs. cbv zeta. unfold _safe_update_audio_levels, guarded.
  destruct (_shutting_down (win w)); [now left|].
  destruct (processing_mode (win w)) eqn:P.
  - rewrite (update_audio_levels_processing g u w P). now left.
  - destruct (g (audio_input (win w)) (error_state w)) as [r|e] eqn:G.
    + rewrite (update_audio_levels_recording g u w r Hs P G).
      right. exists r. now split.
    + rewrite (update_audio_levels_raises g u w e P G). now left.
Qed.

(** What the mode poll does to the spinner. *)
Lemma safe_check_processing_mode_spinner p e now gtk w :
  let a' := spinner_angle (win (fst (_safe_check_processing_mode p e now gtk w))) in
  a' = spinner_angle (win w) \/ a' = 0%float.
Proof.
  cbv zeta. unfold _safe_check_processing_mode, guarded.
  destruct (_shutting_down (win w)); [now left|].
  unfold check_processing_mode, bind, self.
  destruct (p && negb (processing_mode (win w))); simpl;
    destruct e; simpl; try destruct gtk; simpl; auto.
Qed.

Lemma two_pi_nonneg : (0 <=? two_pi)%float = true.
Proof. vm_compute. reflexivity. Qed.

Lemma spin_within a : within 0 two_pi (spin a) = true.
Proof. unfold spin. cbv zeta. apply clamp_within, two_pi_nonneg. Qed.

Lemma smooth_all_unit targets bs : unit_list (smooth_all targets bs).
Proof.
  unfold unit_list, smooth_all. apply Forall_forall. intros x Hx.
  apply in_map_iff in Hx. destruct Hx as [[b t] [<- _]]. simpl.
  unfold smooth. apply clamp_within. reflexivity.
Qed.

Lemma length_smooth_all targets bs :
  List.length (smooth_all targets bs)
  = Nat.min (List.length bs) (List.length targets).
Proof. unfold smooth_all. now rewrite length_map, length_combine. Qed.

Lemma shaped_spec_audio_tick lv u s :
  num_bars s = NUM_BARS -> List.length (bars s) = NUM_BARS ->
  List.length (audio_levels s) = NUM_BARS ->
  let s' := spec_audio_tick lv u s in
  num_bars s' = NUM_BARS /\ List.length (bars s') = NUM_BARS /\
  List.length (target_bars s') = NUM_BARS /\
  List.length (audio_levels s') = NUM_BARS.
Proof.
  intros Hn Hb Ha. unfold spec_audio_tick. cbv zeta.
  split; [exact Hn|]. split; [exact Hb|]. split.
  - change (List.length (map (bar_target (push (audio_levels s) lv) u)
                           (seq 0 NUM_BARS)) = NUM_BARS).
    now rewrite length_map, length_seq.
  - change (List.length (push (audio_levels s) lv) = NUM_BARS).
    unfold push. rewrite length_app. simpl.
    destruct (audio_levels s); simpl in *; [discriminate Ha|]. lia.
Qed.

Lemma ranges_transfer w w' :
  lists_state w' = lists_state w ->
  within 0 two_pi (spinner_angle (win w')) = true ->
  ranges w -> ranges w'.
Proof.
  unfold lists_state, ranges, shaped, unit_list.
  intros L S ((H1 & H2 & H3 & H4) & Hb & _).
  injection L as L1 L2 L3 L4 _. rewrite L1, L2, L3, L4.
  repeat split; assumption.
Qed.

Lemma step_ranges_callback t w : ranges w -> ranges (fst (callback t w)).
Proof.
  intros R. pose proof R as ((H1 & H2 & H3 & H4) & Hb & Ha).
  assert (Hs : shaped w) by (repeat split; assumption).
  destruct t.
  - apply (ranges_transfer w); [now apply callback_lists| |exact R].
    rewrite callback_spinner; [exact Ha|exact I].
  - simpl callback.
    pose proof (safe_update_animation_win gtk w Hs) as C. cbv zeta in C.
    unfold ranges, shaped, unit_list.
    destruct C as [C|[C|C]]; rewrite C;
      cbn [num_bars bars target_bars audio_levels spinner_angle
           set_spinner_angle set_bars].
    + repeat split; assumption.
    + repeat split; try assumption. apply spin_within.
    + repeat split; try assumption.
      * rewrite length_smooth_all, H2, H3. reflexivity.
      * apply smooth_all_unit.
  - apply (ranges_transfer w); [now apply callback_lists| |exact R].
    simpl callback.
    destruct (safe_check_processing_mode_spinner processing_file error_file
                now gtk w) as [E|E]; rewrite E; [exact Ha|reflexivity].
  - pose proof (callback_spinner (TAudio get_level uniform) w I) as S.
    simpl callback in *.
    pose proof (safe_update_audio_levels_win get_level uniform w Hs) as C.
    cbv zeta in C. unfold ranges, shaped, unit_list. rewrite S.
    destruct C as [C|[r [_ C]]]; rewrite C.
    + repeat split; assumption.
    + destruct (shaped_spec_audio_tick (Audio.level r) uniform
                  (set_audio_input (Audio.self' r) (win w)) H1 H2 H4)
        as (K1 & K2 & K3 & K4).
      repeat split; try assumption.
  - apply (ranges_transfer w); [now apply callback_lists| |exact R].
    rewrite callback_spinner; [exact Ha|exact I].
  - apply (ranges_transfer w); [now apply callback_lists| |exact R].
    rewrite callback_spinner; [exact Ha|exact I].
  - apply (ranges_transfer w); [now apply callback_lists| |exact R].
    rewrite callback_spinner; [exact Ha|exact I].
Qed.

Lemma step_ranges t w : ranges w -> ranges (step t w).
Proof.
  intros R. pose proof (step_ranges_callback t w R) as C.
  unfold ranges, shaped, unit_list in *.
  destruct (win_step t w) as [E|E]; rewrite E; assumption.
Qed.

Lemma init_ranges now ev : ranges (init now ev).
Proof.
  unfold init. destruct (Audio.setup ev Audio.new Errors.initial) as [[a es] b].
  split; [repeat split|split]; simpl.
  - unfold unit_list. repeat constructor.
  - reflexivity.
Qed.

Lemma run_ranges ts w : ranges w -> ranges (run ts w).
Proof.
  revert w. induction ts as [|t ts IH]; intros w H; simpl; [exact H|].
  apply IH, step_ranges, H.
Qed.

(** *** With levels in [[0, 1]] *)










(* ------------------------------------------------------------------ *)
(** ** C1: ranges of the float fields *)




(** The handler maps an angle below [2 pi] to [2 pi] itself: its guard is
    [>], and its clamp is closed. *)
Example spin_reaches_two_pi :
  (two_pi - 0.15 <? two_pi)%float = true /\ spin (two_pi - 0.15) = two_pi.
Proof. vm_compute. split; reflexivity. Qed.

(* ------------------------------------------------------------------ *)
(** ** C5: bar interpolation *)







(* ------------------------------------------------------------------ *)
(** ** C6: the audio tick *)



Lemma processing_freezes_waveform_witness :
  let w := run [TProcessingMode true false 0 None] (init 0 Audio.Opened) in
  processing_mode (win w) = true /\
  waveform (run [TAudio (constant_sampler 1) (fun _ => 1); TAnimation None] w)
  = waveform w.
Proof.
  split; [reflexivity|].
  exact (proj2 (proj2 (proj2
           (processing_freezes_waveform
              (run [TProcessingMode true false 0 None] (init 0 Audio.Opened))
              eq_refl))) _).
Defined.

(** ** Timer sources *)

Lemma timer_eqb_eq a b : timer_eqb a b = true <-> a = b.
Proof. destruct a, b; cbn; split; intros H; try discriminate H; reflexivity. Qed.

Lemma installed_In src w : installed src w = true <-> In src (timers w).
Proof.
  unfold installed. rewrite existsb_exists. split.
  - intros [x [Hx E]]. apply timer_eqb_eq in E. now subst.
  - intros H. exists src. split; [exact H|]. now apply timer_eqb_eq.
Qed.

Lemma existsb_filter_other src other l :
  other <> src ->
  existsb (timer_eqb other) (filter (fun x => negb (timer_eqb src x)) l)
  = existsb (timer_eqb other) l.
Proof.
  intros D. induction l as [|x l IH]; [reflexivity|].
  cbn [filter existsb].
  destruct (timer_eqb src x) eqn:X; cbn [negb existsb].
  - apply timer_eqb_eq in X. subst x.
    replace (timer_eqb other src) with false; [exact IH|].
    symmetry. destruct (timer_eqb other src) eqn:Y; [|reflexivity].
    apply timer_eqb_eq in Y. contradiction.
  - now rewrite IH.
Qed.

Lemma callback_timers t w : timers (fst (callback t w)) = timers w.
Proof.
  revert w.
  destruct t; simpl; intros w; revert w;
    try (apply (frames_guarded timers); [|intros e w1; reflexivity]).
  - unfold position_window. frame.
  - unfold update_animation, bar_step. frame.
  - unfold check_processing_mode. frame.
  - unfold update_audio_levels, target_bar_step. frame.
  - unfold animate_entrance, entrance_tail. frame.
  - unfold check_close_signal. frame.
  - change (frames timers on_destroy). unfold on_destroy. frame.
Qed.

Lemma step_timers t w x : In x (timers (step t w)) -> In x (timers w).
Proof.
  unfold step. destruct (source t) as [src|].
  - destruct (existsb (timer_eqb src) (timers w)); [|auto].
    pose proof (callback_timers t w) as E.
    destruct (callback t w) as [w' keep]. cbn [fst] in E.
    destruct keep; cbn [timers with_timers]; rewrite E; [auto|].
    intros H. apply filter_In in H. tauto.
  - now rewrite callback_timers.
Qed.

Lemma run_timers ts : forall w x, In x (timers (run ts w)) -> In x (timers w).
Proof.
  induction ts as [|t ts IH]; intros w x H; [exact H|].
  cbn [run fold_left] in H. apply (step_timers t). now apply IH.
Qed.

Lemma callback_latched t w :
  _shutting_down (win w) = true -> is_timer t -> callback t w = (w, false).
Proof.
  intros H T. destruct t; simpl; try apply guarded_latched; try exact H.
  contradiction T.
Qed.

Lemma step_latched_removes t src w :
  _shutting_down (win w) = true -> source t = Some src ->
  ~ In src (timers (step t w)).
Proof.
  intros H S. unfold step. rewrite S.
  destruct (existsb (timer_eqb src) (timers w)) eqn:E.
  - rewrite (callback_latched t w H) by (destruct t; [..|discriminate S]; exact I).
    cbn [timers with_timers]. intros X. apply filter_In in X.
    destruct X as [_ X]. rewrite (proj2 (timer_eqb_eq src src) eq_refl) in X.
    discriminate X.
  - intros X. apply installed_In in X. unfold installed in X.
    rewrite E in X. discriminate X.
Qed.

Lemma run_latched ts : forall w,
  _shutting_down (win w) = true -> _shutting_down (win (run ts w)) = true.
Proof.
  induction ts as [|t ts IH]; intros w H; [exact H|].
  cbn [run fold_left]. apply IH.
  pose proof (step_latched t w H) as L. unfold latch in L.
  injection L as L _. now rewrite L.
Qed.

(** X15.  No event installs a timer source: the sources installed after a
    run were installed before it.  Once the shutdown latch is set, the next
    firing of a source removes it and changes nothing else, so a run in
    which every source fires leaves no source installed. *)
Theorem sources_only_go_away (ts : list tick) (w : World) :
  (forall src, In src (timers (run ts w)) -> In src (timers w)) /\
  (_shutting_down (win w) = true ->
   (forall t src, source t = Some src ->
      ~ In src (timers (step t w)) /\ program (step t w) = program w) /\
   ((forall src, exists t, In t ts /\ source t = Some src) ->
    timers (run ts w) = [])).
Proof.
  split; [apply run_timers|]. intros H. split.
  - intros t src S. split; [now apply step_latched_removes|].
    now apply step_program_latched.
  - intros All. destruct (timers (run ts w)) as [|x l] eqn:E; [reflexivity|].
    exfalso. destruct (All x) as [t [Ht S]].
    apply in_split in Ht. destruct Ht as [ts1 [ts2 ->]].
    rewrite run_app in E.
    assert (X : In x (timers (run (t :: ts2) (run ts1 w))))
      by (rewrite E; now left).
    change (run (t :: ts2) (run ts1 w))
      with (run ts2 (step t (run ts1 w))) in X.
    apply run_timers in X.
    exact (step_latched_removes t x _ (run_latched ts1 w H) S X).
Qed.

Lemma sources_only_go_away_witness :
  _shutting_down (win destroyed) = true /\
  timers (run one_round destroyed) = [].
Proof.
  split; [reflexivity|].
  refine (proj2 (proj2 (sources_only_go_away one_round destroyed) eq_refl) _).
  intros src. destruct src;
    [exists (TPosition true 0 0 0 0 None)
    |exists (TPosition false 0 0 0 0 None)
    |exists (TAnimation None)
    |exists (TProcessingMode false false 0 None)
    |exists (TAudio (fun a es => Returns (Audio.mk_level_result 0 a es []))
               (fun _ => 1))
    |exists (TEntrance None)
    |exists (TCloseSignal false)];
    (split; [cbn; tauto|reflexivity]).
Defined.

(** ** What can tear the window down *)

Lemma callback_progress t w :
  match t with TEntrance _ => False | _ => True end ->
  animation_progress (win (fst (callback t w))) = animation_progress (win w).
Proof.
  revert w.
  destruct t; simpl; intros w H; try contradiction; revert w;
    try (apply (frames_guarded (fun w => animation_progress (win w)));
         [|intros e w1; reflexivity]).
  - unfold position_window. frame.
  - unfold update_animation, bar_step. frame.
  - unfold check_processing_mode. frame.
  - unfold update_audio_levels, target_bar_step. frame.
  - unfold check_close_signal. frame.
  - change (frames (fun w => animation_progress (win w)) on_destroy).
    unfold on_destroy. frame.
Qed.

Lemma step_without_entrance t w :
  entrance_installed w = false -> is_timer t ->
  latch (step t w) = latch w /\
  animation_progress (win (step t w)) = animation_progress (win w) /\
  entrance_installed (step t w) = false.
Proof.
  intros E T.
  assert (E' : entrance_installed (step t w) = false).
  { destruct (entrance_installed (step t w)) eqn:X; [|reflexivity].
    apply (installed_In Entrance) in X. apply step_timers in X.
    apply (installed_In Entrance) in X.
    unfold installed, entrance_installed in *. congruence. }
  assert (C : (exists gtk, t = TEntrance gtk)
              \/ match t with TEntrance _ | TDestroy => False | _ => True end).
  { destruct t; try (right; exact I); [left; eauto|contradiction]. }
  destruct C as [[gtk ->]|N].
  - assert (S : step (TEntrance gtk) w = w).
    { unfold step. cbn [source]. unfold entrance_installed in E.
      now rewrite E. }
    rewrite S. auto.
  - split; [|split; [|exact E']].
    + destruct (latch_step_callback t w) as [H|H]; [exact H|].
      rewrite H. now apply callback_latch.
    + destruct (win_step t w) as [H|H]; rewrite H; [reflexivity|].
      apply callback_progress. destruct t; try exact I; contradiction.
Qed.

Lemma run_without_entrance ts : forall w,
  entrance_installed w = false -> Forall is_timer ts ->
  latch (run ts w) = latch w /\
  animation_progress (win (run ts w)) = animation_progress (win w).
Proof.
  induction ts as [|t ts IH]; intros w E F; [now split|].
  inversion F as [|? ? Ht Hts]; subst.
  destruct (step_without_entrance t w E Ht) as (L & P & E').
  cbn [run fold_left]. destruct (IH (step t w) E' Hts) as [L' P'].
  unfold run in *. rewrite L', P'. now split.
Qed.

(** X16.  Only the entrance timer and the [destroy] signal tear the window
    down: when the entrance source is no longer installed, no run of timer
    events sets the shutdown latch, makes a cleanup call or moves
    [animation_progress] (a close request included: the flag is set and
    nothing follows). *)
Theorem teardown_needs_entrance_or_destroy (ts : list tick) (w : World) :
  entrance_installed w = false -> Forall is_timer ts ->
  _shutting_down (win (run ts w)) = _shutting_down (win w) /\
  effects (run ts w) = effects w /\
  animation_progress (win (run ts w)) = animation_progress (win w).
Proof.
  intros E F. destruct (run_without_entrance ts w E F) as [L P].
  unfold latch in L. injection L as L1 L2. auto.
Qed.



Lemma teardown_needs_entrance_or_destroy_witness :
  let ts := [TCloseSignal true; TEntrance None; TEntrance None] in
  entrance_installed stuck_open = false /\ Forall is_timer ts /\
  is_closing (win (run ts stuck_open)) = true /\
  effects (run ts stuck_open) = [].
Proof.
  assert (F : Forall is_timer [TCloseSignal true; TEntrance None; TEntrance None])
    by (repeat constructor).
  split; [reflexivity|]. split; [exact F|]. split; [reflexivity|].
  exact (proj1 (proj2 (teardown_needs_entrance_or_destroy _ stuck_open
                         eq_refl F))).
Defined.


(** ** The mode and the flags *)

Lemma step_fired t src w :
  source t = Some src -> installed src w = true ->
  _shutting_down (win w) = false ->
  forall body on_error, callback t = guarded body on_error ->
  step t w =
  match body w with
  | (w', Returns true) => w'
  | (w', Returns false) =>
      with_timers (filter (fun x => negb (timer_eqb src x)) (timers w')) w'
  | (w', Raises e) =>
      let (w'', keep) := on_error e w' in
      if keep then w''
      else with_timers (filter (fun x => negb (timer_eqb src x)) (timers w'')) w''
  end.
Proof.
  intros S I L body on_error C. unfold step, installed in *.
  rewrite S, I, C. unfold guarded. rewrite L.
  destruct (body w) as [w' [[|]|e]]; reflexivity.
Qed.



(** X19.  [position_window] waits while the window has no allocation (a
    width of at most 1 leaves everything as it is and the timer running);
    with an allocation it stores [screen_height - height - 150] in
    [target_y] and its timer is removed, whether the move raised or not,
    so that source never fires again. *)
Theorem position_window_is_one_shot (w : World) (early : bool)
    (width height screen_width screen_height : Z) (gtk : option exn) :
  let src := if early then PositionEarly else PositionLate in
  let t := TPosition early width height screen_width screen_height gtk in
  _shutting_down (win w) = false -> installed src w = true ->
  ((width <= 1)%Z -> step t w = w) /\
  ((1 < width)%Z ->
   target_y (win (step t w)) = (screen_height - height - 150)%Z /\
   installed src (step t w) = false /\
   (forall other, other <> src ->
      installed other (step t w) = installed other w) /\
   forall ts a b c d g,
     run (ts ++ [TPosition early a b c d g]) (step t w) = run ts (step t w)).
Proof.
  cbv zeta. intros L I.
  assert (S : source (TPosition early width height screen_width screen_height gtk)
              = Some (if early then PositionEarly else PositionLate))
    by reflexivity.
  rewrite (step_fired _ _ w S I L _ _ eq_refl).
  unfold position_window. split.
  - intros H. apply Z.leb_le in H. rewrite H. reflexivity.
  - intros H. apply Z.leb_gt in H. rewrite H.
    set (src := if early then PositionEarly else PositionLate) in *.
    set (w1 := with_win (set_target_y (screen_height - height - 150) (win w)) w).
    assert (E : (let (w', o) :=
                   bind (assign (set_target_y (screen_height - height - 150)))
                     (fun _ => bind (toolkit gtk) (fun _ => ret false)) w in
                 match o with
                 | Returns true => w'
                 | Returns false =>
                     with_timers
                       (filter (fun x => negb (timer_eqb src x)) (timers w')) w'
                 | Raises e =>
                     let (w'', keep) :=
                       (log Errors.WINDOW_MGMT "Error positioning window: " e w',
                        false) in
                     if keep then w''
                     else with_timers
                            (filter (fun x => negb (timer_eqb src x))
                               (timers w'')) w''
                 end)
                = with_timers
                    (filter (fun x => negb (timer_eqb src x)) (timers w))
                    (match gtk with
                     | Some e => log Errors.WINDOW_MGMT
                                   "Error positioning window: " e w1
                     | None => w1
                     end)).
    { destruct gtk; reflexivity. }
    rewrite E. clear E.
    set (w2 := with_timers _ _).
    assert (T : timers w2 = filter (fun x => negb (timer_eqb src x)) (timers w))
      by reflexivity.
    assert (N : installed src w2 = false).
    { destruct (installed src w2) eqn:X; [|reflexivity].
      apply installed_In in X. rewrite T in X. apply filter_In in X.
      destruct X as [_ X].
      rewrite (proj2 (timer_eqb_eq src src) eq_refl) in X. discriminate X. }
    split; [unfold w2; destruct gtk; reflexivity|]. split; [exact N|]. split.
    + intros other D. unfold installed. rewrite T.
      now apply existsb_filter_other.
    + intros ts a b c d g. rewrite run_app.
      change (run [TPosition early a b c d g] (run ts w2))
        with (step (TPosition early a b c d g) (run ts w2)).
      unfold step. cbn [source]. fold src.
      assert (X : existsb (timer_eqb src) (timers (run ts w2)) = false).
      { destruct (existsb (timer_eqb src) (timers (run ts w2))) eqn:X;
          [|reflexivity].
        apply (installed_In src (run ts w2)) in X. apply run_timers in X.
        apply installed_In in X. rewrite N in X. discriminate X. }
      now rewrite X.
Qed.

Lemma position_window_is_one_shot_witness :
  let w := init 0 Audio.Opened in
  _shutting_down (win w) = false /\ installed PositionEarly w = true /\
  target_y (win (step (TPosition true 140 40 1920 1080 None) w)) = 890%Z.
Proof.
  split; [reflexivity|]. split; [reflexivity|].
  exact (proj1 (proj2 (position_window_is_one_shot (init 0 Audio.Opened) true
                         140 40 1920 1080 None eq_refl eq_refl)
                 eq_refl)).
Defined.

(** X20.  A close request is permanent: no event clears [is_closing].  The
    poll sets it when the signal file is there, and otherwise (no file, or
    already closing) leaves the whole state as it is. *)
Theorem close_request_is_permanent (ts : list tick) (w : World) :
  (is_closing (win w) = true -> is_closing (win (run ts w)) = true) /\
  is_closing (win (fst (close_with_animation w))) = true /\
  (_shutting_down (win w) = false -> installed CloseSignal w = true ->
   is_closing (win (step (TCloseSignal true) w)) = true /\
   step (TCloseSignal false) w = w /\
   (is_closing (win w) = true -> step (TCloseSignal true) w = w)).
Proof.
  split; [|split; [reflexivity|]].
  - revert w. induction ts as [|t ts IH]; intros w C; [exact C|].
    cbn [run fold_left]. apply IH. now apply step_closing.
  - intros L I.
    assert (E : forall c, step (TCloseSignal c) w =
                  if c && negb (is_closing (win w))
                  then with_win (set_is_closing true (win w)) w else w).
    { intros c.
      rewrite (step_fired (TCloseSignal c) CloseSignal w eq_refl I L _ _
                 eq_refl).
      unfold check_close_signal, bind, self, assign.
      destruct (c && negb (is_closing (win w))); reflexivity. }
    rewrite !E. cbn [andb]. split; [|split; [reflexivity|]].
    + destruct (is_closing (win w)) eqn:C; [exact C|reflexivity].
    + intros C. now rewrite C.
Qed.

Lemma callback_offline t w :
  is_offline (win w) = true -> is_offline (win (fst (callback t w))) = true.
Proof.
  intros O.
  assert (F : forall m : World -> World * bool,
            frames (fun w => is_offline (win w)) m ->
            is_offline (win (fst (m w))) = true).
  { intros m H. now rewrite H. }
  assert (G : forall body on_error,
            frames (fun w => is_offline (win w)) body ->
            (forall e w1, is_offline (win (fst (on_error e w1)))
                          = is_offline (win w1)) ->
            is_offline (win (fst (guarded body on_error w))) = true).
  { intros body on_error Hb He. apply F. apply frames_guarded; [exact Hb|].
    intros e w1. apply He. }
  destruct t; cbn [callback].
  - apply G; [|reflexivity]. unfold position_window. frame.
  - apply G; [|reflexivity]. unfold update_animation, bar_step. frame.
  - unfold _safe_check_processing_mode, guarded.
    destruct (_shutting_down (win w)); [exact O|].
    unfold check_processing_mode, bind, self, assign.
    destruct (processing_file && negb (processing_mode (win w)));
      destruct error_file; cbn; try destruct gtk; cbn; try reflexivity;
      exact O.
  - apply G; [|reflexivity].
    unfold update_audio_levels, target_bar_step. frame.
  - apply G; [|reflexivity]. unfold animate_entrance, entrance_tail. frame.
  - apply G; [|reflexivity]. unfold check_close_signal. frame.
  - cbn [fst]. rewrite <- O. clear. revert w.
    change (frames (fun w => is_offline (win w)) on_destroy).
    unfold on_destroy. frame.
Qed.

(** X21.  The connection-error state is permanent: no event clears
    [is_offline], and while it is set the waveform handler draws no bar and
    the timer handler draws neither text nor spinner, whatever the rest of
    the state. *)
Theorem connection_error_is_permanent (ts : list tick) (w : World) :
  is_offline (win w) = true ->
  is_offline (win (run ts w)) = true /\
  forall width height now,
    on_draw_waveform width height (win (run ts w)) = None /\
    on_draw_timer width height now (win (run ts w)) = Renderers.Nothing.
Proof.
  intros O.
  assert (R : is_offline (win (run ts w)) = true).
  { revert w O. induction ts as [|t ts IH]; intros w O; [exact O|].
    cbn [run fold_left]. apply IH.
    destruct (win_step t w) as [E|E]; rewrite E;
      [exact O|now apply callback_offline]. }
  split; [exact R|]. intros width height now.
  unfold on_draw_waveform, on_draw_timer, Renderers.draw_timer. rewrite R.
  split; [reflexivity|].
  destruct ((width <=? 0)%Z || (height <=? 0)%Z); [reflexivity|].
  destruct (animation_progress (win (run ts w)) <? 0.7); reflexivity.
Qed.

Lemma connection_error_is_permanent_witness :
  is_offline (win offline) = true /\
  on_draw_waveform 110 24
    (win (run (repeat (TEntrance None) 25) offline)) = None.
Proof.
  split; [reflexivity|].
  exact (proj1 (proj2 (connection_error_is_permanent
                         (repeat (TEntrance None) 25) offline eq_refl)
                 110%Z 24%Z 0)).
Defined.

(** ** What the draw handlers show along a run *)

Lemma within_is_finite lo hi x :
  is_finite lo = true -> is_finite hi = true -> within lo hi x = true ->
  is_finite x = true.
Proof.
  rewrite !is_finite_spec. intros Hlo Hhi H.
  pose proof (within_finite lo hi x) as F. unfold is_finite_sf in F.
  destruct (Prim2SF lo); try discriminate Hlo;
    destruct (Prim2SF hi); try discriminate Hhi;
    specialize (F I I H); destruct (Prim2SF x); try contradiction;
    reflexivity.
Qed.

(** X22.  After any run from the initial state, once the morph has reached
    0.7 and while no connection error is shown, the waveform handler draws
    exactly 16 bars on an area that has a size, and in processing mode the
    timer handler draws the arc from the stored [spinner_angle], which lies
    in [[0, 2 pi]], over [1.5 * pi]. *)
Theorem drawing_along_a_run (now : float) (ev : Audio.setup_event)
    (ts : list tick) (width height : Z) (t : float) :
  let s := win (run ts (init now ev)) in
  (0 < width)%Z -> (0 < height)%Z ->
  is_offline s = false -> (animation_progress s <? 0.7) = false ->
  (exists alpha shapes,
     on_draw_waveform width height s = Some (alpha, shapes) /\
     List.length shapes = 16%nat) /\
  (processing_mode s = true ->
   on_draw_timer width height t s
   = Renderers.Spinner (spinner_angle s) (spinner_angle s + math_pi * 1.5) /\
   within 0 two_pi (spinner_angle s) = true).
Proof.
  cbv zeta. intros W H O P.
  pose proof (run_ranges ts _ (init_ranges now ev))
    as ((H1 & H2 & H3 & H4) & Hb & Ha).
  set (s := win (run ts (init now ev))) in *.
  apply Z.leb_gt in W, H.
  split.
  - unfold on_draw_waveform, Renderers.draw_waveform.
    rewrite O, W, H, P, H1.
    change (Z.of_nat NUM_BARS <=? 0)%Z with false.
    change (Z.to_nat (Z.of_nat NUM_BARS)) with 16%nat.
    destruct (bars s) as [|b0 bs] eqn:B; [discriminate H2|]. cbn [orb].
    eexists. eexists. split; [reflexivity|].
    rewrite length_map, length_combine, length_seq, length_firstn, H2.
    reflexivity.
  - intros M. split; [|exact Ha].
    unfold on_draw_timer, Renderers.draw_timer. rewrite W, H, P, O, M.
    cbn [orb].
    now rewrite (within_is_finite 0 two_pi _ eq_refl eq_refl Ha).
Qed.

Lemma drawing_along_a_run_witness :
  let ts := repeat (TEntrance None) 18
            ++ [TProcessingMode true false 5 None; TAnimation None] in
  let s := win (run ts (init 0 Audio.Opened)) in
  is_offline s = false /\ (animation_progress s <? 0.7) = false /\
  processing_mode s = true /\
  on_draw_timer 40 24 9 s = Renderers.Spinner 0.15 (0.15 + math_pi * 1.5).
Proof.
  split; [reflexivity|]. split; [reflexivity|]. split; [reflexivity|].
  exact (proj1 (proj2 (drawing_along_a_run 0 Audio.Opened
                         (repeat (TEntrance None) 18
                          ++ [TProcessingMode true false 5 None;
                              TAnimation None])
                         40 24 9 eq_refl eq_refl eq_refl eq_refl)
                 eq_refl)).
Defined.

(** ** An overlay without a microphone *)

Lemma init_settled now ev : ev <> Audio.Opened -> settled (init now ev).
Proof.
  intros N. destruct ev; try contradiction; repeat split.
Qed.

Lemma zero_times (u : float) :
  within 0.8 1.2 u = true -> exists s, Prim2SF (0 * u) = S754_zero s.
Proof.
  intros H.
  pose proof (within_finite 0.8 1.2 u I I H) as F.
  rewrite FloatAxioms.mul_spec. unfold SF64mul.
  change (Prim2SF 0) with (S754_zero false).
  destruct (Prim2SF u) as [s|s| |s m e]; cbn in *; try contradiction; eauto.
Qed.

Lemma bar_target_silent (u : nat -> float) (i : nat) :
  within 0.8 1.2 (u i) = true -> bar_target (repeat 0 16) u i = 0.1.
Proof.
  intros H. unfold bar_target. rewrite nth_repeat.
  destruct (zero_times (u i) H) as [s E]. cbv zeta.
  rewrite !FloatAxioms.ltb_spec, E.
  change (Prim2SF 1.0) with (S754_finite false 4503599627370496 (-52)).
  cbn [SFltb SFcompare]. rewrite E.
  change (Prim2SF 0.1) with (S754_finite false 7205759403792794 (-56)).
  destruct s; reflexivity.
Qed.

Lemma silent_tick (u : nat -> float) (s : WaveformOverlay) :
  (forall i, within 0.8 1.2 (u i) = true) ->
  audio_levels s = repeat 0 16 -> overall_audio_level s = 0 ->
  let s' := spec_audio_tick 0 u s in
  target_bars s' = repeat 0.1 16 /\ audio_levels s' = repeat 0 16 /\
  overall_audio_level s' = 0 /\ bars s' = bars s /\ num_bars s' = num_bars s /\
  audio_input s' = audio_input s.
Proof.
  intros U A O. cbv zeta. unfold spec_audio_tick.
  cbn [target_bars audio_levels overall_audio_level bars num_bars audio_input
       set_target_bars set_audio_levels set_overall_audio_level].
  rewrite A, O.
  change (push (repeat 0 16) 0) with (repeat 0 16).
  split; [|repeat split].
  rewrite (map_ext_in _ (fun _ => 0.1)).
  - reflexivity.
  - intros i _. apply bar_target_silent, U.
Qed.

Lemma callback_setup_failed t w :
  match t with TAudio _ _ => False | _ => True end ->
  Audio._setup_failed (audio_input (win (fst (callback t w))))
  = Audio._setup_failed (audio_input (win w)).
Proof.
  intros T.
  assert (G : forall body on_error,
            frames (fun w => audio_input (win w)) body ->
            (forall e w1, audio_input (win (fst (on_error e w1)))
                          = audio_input (win w1)) ->
            Audio._setup_failed
              (audio_input (win (fst (guarded body on_error w))))
            = Audio._setup_failed (audio_input (win w))).
  { intros body on_error Hb He.
    pose proof (frames_guarded (fun w => audio_input (win w)) body on_error
                  Hb He w) as E.
    cbv beta in E. now rewrite E. }
  destruct t; cbn [callback]; try contradiction.
  - apply G; [|reflexivity]. unfold position_window. frame.
  - apply G; [|reflexivity]. unfold update_animation, bar_step. frame.
  - unfold _safe_check_processing_mode, guarded.
    destruct (_shutting_down (win w)); [reflexivity|].
    unfold check_processing_mode, bind, self, assign.
    destruct (processing_file && negb (processing_mode (win w)));
      destruct error_file; cbn; try destruct gtk; reflexivity.
  - unfold _safe_animate_entrance, guarded.
    destruct (_shutting_down (win w)) eqn:S; [reflexivity|].
    destruct (is_closing (win w)) eqn:C.
    + rewrite (animate_entrance_closing gtk w C).
      destruct (animation_progress (win w) - 0.04 <=? 0).
      * unfold torn_down. cbn. rewrite S. reflexivity.
      * destruct gtk; reflexivity.
    + rewrite (animate_entrance_opening gtk w C). destruct gtk; reflexivity.
  - apply G; [|reflexivity]. unfold check_close_signal. frame.
  - cbn [fst]. unfold on_destroy, bind, self, assign, safe_cleanup.
    destruct (_shutting_down (win w)); reflexivity.
Qed.

Lemma callback_settled t w :
  settled w -> reads_microphone t -> settled (fst (callback t w)).
Proof.
  intros (Hs & Hf & Hw) R.
  pose proof Hs as (H1 & H2 & H3 & H4).
  unfold waveform in Hw. injection Hw as Wb Wt Wa Wo.
  assert (K : forall w',
            lists_state w' = lists_state w ->
            Audio._setup_failed (audio_input (win w'))
            = Audio._setup_failed (audio_input (win w)) ->
            settled w').
  { intros w' L F. unfold lists_state in L. injection L as L1 L2 L3 L4 L5.
    unfold settled, shaped, waveform. rewrite L1, L2, L3, L4, L5, F.
    repeat split; try assumption. now rewrite Wb, Wt, Wa, Wo. }
  destruct t; try (apply K; [now apply callback_lists
                            |now apply callback_setup_failed]).
  - cbn [callback].
    pose proof (callback_setup_failed (TAnimation gtk) w I) as F.
    cbn [callback] in F.
    pose proof (safe_update_animation_win gtk w Hs) as C. cbv zeta in C.
    unfold settled, shaped, waveform. rewrite F.
    destruct C as [C|[C|C]]; rewrite C;
      cbn [num_bars bars target_bars audio_levels overall_audio_level
           set_spinner_angle set_bars];
      rewrite ?Wb, ?Wt, ?Wa, ?Wo; repeat split; try assumption;
      try (rewrite <- Wb; assumption).
  - destruct R as [[dev ->] U]. cbn [callback].
    pose proof (safe_update_audio_levels_win (Audio.get_level dev) uniform w Hs)
      as C. cbv zeta in C.
    destruct C as [C|[r [G C]]].
    + unfold settled, shaped, waveform. rewrite C.
      repeat split; try assumption. now rewrite Wb, Wt, Wa, Wo.
    + destruct (get_level_unavailable dev (audio_input (win w)) (error_state w))
        as [r' [G' [(U1 & U2 & U3) _]]].
      { left. unfold Audio.is_available. now rewrite Hf. }
      rewrite G in G'. injection G' as <-.
      rewrite U1, U2 in C.
      change (set_audio_input (audio_input (win w)) (win w)) with (win w) in C.
      destruct (silent_tick uniform (win w) U Wa Wo) as (T1 & T2 & T3 & T4 & T5 & T6).
      unfold settled, shaped, waveform. rewrite C, T1, T2, T3, T4, T5, T6.
      repeat split; try assumption. now rewrite Wb.
Qed.

Lemma run_settled ts : forall w,
  settled w -> Forall reads_microphone ts -> settled (run ts w).
Proof.
  induction ts as [|t ts IH]; intros w S F; [exact S|].
  inversion F as [|? ? Ht Hts]; subst. cbn [run fold_left].
  apply IH; [|exact Hts].
  pose proof (callback_settled t w S Ht) as C.
  unfold settled, shaped, waveform in *.
  destruct (win_step t w) as [E|E]; rewrite E; assumption.
Qed.

(** X23.  When the audio setup failed, the overlay runs with a static
    waveform: over any run whose audio ticks call [get_level] of audio.py,
    on any stream, with jitter factors in [[0.8, 1.2]], the bars and their
    targets stay at 0.1 and the history and the smoothed level at 0.0. *)
Theorem waveform_is_static_without_audio (now : float)
    (ev : Audio.setup_event) (ts : list tick) :
  ev <> Audio.Opened -> Forall reads_microphone ts ->
  let s := win (run ts (init now ev)) in
  bars s = repeat 0.1 16 /\ target_bars s = repeat 0.1 16 /\
  audio_levels s = repeat 0 16 /\ overall_audio_level s = 0 /\
  Audio.is_available (audio_input s) = false.
Proof.
  intros N F. cbv zeta.
  destruct (run_settled ts _ (init_settled now ev N) F) as (_ & Hf & Hw).
  unfold waveform in Hw. injection Hw as Wb Wt Wa Wo.
  repeat split; try assumption.
  unfold Audio.is_available. now rewrite Hf.
Qed.

Lemma waveform_is_static_without_audio_witness :
  let ts := [TAudio (Audio.get_level dev_ok) (fun _ => 1.2); TAnimation None;
             TAudio (Audio.get_level dev_ok) (fun _ => 0.8)] in
  Audio.NoDevices <> Audio.Opened /\ Forall reads_microphone ts /\
  target_bars (win (run ts (init 0 Audio.NoDevices))) = repeat 0.1 16.
Proof.
  assert (N : Audio.NoDevices <> Audio.Opened) by discriminate.
  assert (F : Forall reads_microphone
                [TAudio (Audio.get_level dev_ok) (fun _ => 1.2);
                 TAnimation None;
                 TAudio (Audio.get_level dev_ok) (fun _ => 0.8)]).
  { repeat constructor; eauto. }
  split; [exact N|]. split; [exact F|].
  exact (proj1 (proj2 (waveform_is_static_without_audio 0 Audio.NoDevices _
                         N F))).
Defined.

(** ** Exceptions in the handlers *)






End OverlayRuns.
